(** * Verification of the chunking core and the FFI protocol of
    [oxidize-pdf-dotnet], file [native/src/lib.rs].

    A Rust [&str] is modelled as its byte sequence, a [list Z] whose
    elements are the [u8] values.  Byte offsets are [nat] ([usize]).
    The arithmetic is written on [nat]: the additions [start + max_chunk_size]
    and [max_chunk_size * 4] of the source cannot wrap for a page shorter
    than 2^62 bytes, because a second window is only reached when
    [start + max_chunk_size] is below the page length. *)

From Stdlib Require Import ZArith Lia Bool Floats.
From Stdlib Require Strings.String Strings.Ascii.
From Stdlib Require Import List.
Import ListNotations.

Open Scope Z_scope.

(* ------------------------------------------------------------------ *)
(** ** Bytes and char boundaries ([core::str]) *)

(** [utf8_is_cont_byte]: [(byte as i8) < -64]. *)
Definition utf8_is_cont_byte (b : Z) : bool := (128 <=? b) && (b <? 192).

(** [str::is_char_boundary]:
    [index == 0 || match bytes.get(index) { None => index == len,
                                             Some(&b) => (b as i8) >= -0x40 }] *)
Definition is_char_boundary (s : list Z) (index : nat) : bool :=
  (index =? 0)%nat ||
  match nth_error s index with
  | None => (index =? length s)%nat
  | Some b => negb (utf8_is_cont_byte b)
  end.

(** The [while] loop of [find_char_boundary]; [fuel] bounds the number of
    increments, the loop itself stops at the latest at [s.len()]. *)
Fixpoint find_char_boundary_loop (fuel : nat) (s : list Z) (index : nat) : nat :=
  match fuel with
  | O => index
  | S fuel' =>
      if (index <? length s)%nat && negb (is_char_boundary s index)
      then find_char_boundary_loop fuel' s (S index)
      else index
  end.

(** [fn find_char_boundary(s: &str, mut index: usize) -> usize] (lines 27-38). *)
Definition find_char_boundary (s : list Z) (index : nat) : nat :=
  if (length s <=? index)%nat then length s
  else find_char_boundary_loop (length s - index) s index.

(** Slicing [&s[a..b]]: panics ([None]) unless [a <= b <= len] and both
    ends are char boundaries. *)
Definition str_slice (s : list Z) (a b : nat) : option (list Z) :=
  if (a <=? b)%nat && (b <=? length s)%nat
     && is_char_boundary s a && is_char_boundary s b
  then Some (firstn (b - a) (skipn a s))
  else None.

(* ------------------------------------------------------------------ *)
(** ** UTF-8 validity ([core::str::validations::run_utf8_validation]) *)

(** [UTF8_CHAR_WIDTH] table. *)
Definition utf8_char_width (b : Z) : nat :=
  if (0 <=? b) && (b <? 128) then 1
  else if (194 <=? b) && (b <=? 223) then 2
  else if (224 <=? b) && (b <=? 239) then 3
  else if (240 <=? b) && (b <=? 244) then 4
  else 0.

Definition in_range (lo hi b : Z) : bool := (lo <=? b) && (b <=? hi).

(** Second byte of a 3-byte sequence:
    [(0xE0, 0xA0..=0xBF) | (0xE1..=0xEC, 0x80..=0xBF) | (0xED, 0x80..=0x9F)
     | (0xEE..=0xEF, 0x80..=0xBF)] *)
Definition three_ok (first a : Z) : bool :=
  (Z.eqb first 224 && in_range 160 191 a)
  || (in_range 225 236 first && in_range 128 191 a)
  || (Z.eqb first 237 && in_range 128 159 a)
  || (in_range 238 239 first && in_range 128 191 a).

(** Second byte of a 4-byte sequence:
    [(0xF0, 0x90..=0xBF) | (0xF1..=0xF3, 0x80..=0xBF) | (0xF4, 0x80..=0x8F)] *)
Definition four_ok (first a : Z) : bool :=
  (Z.eqb first 240 && in_range 144 191 a)
  || (in_range 241 243 first && in_range 128 191 a)
  || (Z.eqb first 244 && in_range 128 143 a).

Fixpoint run_utf8_validation (v : list Z) : bool :=
  match v with
  | [] => true
  | first :: r =>
      if (0 <=? first) && (first <? 128) then run_utf8_validation r
      else
        match utf8_char_width first, r with
        | 2%nat, a :: r1 => utf8_is_cont_byte a && run_utf8_validation r1
        | 3%nat, a :: b :: r2 =>
            three_ok first a && utf8_is_cont_byte b && run_utf8_validation r2
        | 4%nat, a :: b :: c :: r3 =>
            four_ok first a && utf8_is_cont_byte b && utf8_is_cont_byte c
            && run_utf8_validation r3
        | _, _ => false
        end
  end.

(** One well-formed UTF-8 sequence: the bytes accepted by one round of
    [run_utf8_validation]. *)
Definition utf8_char_ok (c : list Z) : bool :=
  match c with
  | [first] => (0 <=? first) && (first <? 128)
  | [first; a] => (utf8_char_width first =? 2)%nat && utf8_is_cont_byte a
  | [first; a; b] =>
      (utf8_char_width first =? 3)%nat && three_ok first a && utf8_is_cont_byte b
  | [first; a; b; c] =>
      (utf8_char_width first =? 4)%nat && four_ok first a && utf8_is_cont_byte b
      && utf8_is_cont_byte c
  | _ => false
  end.

(* ------------------------------------------------------------------ *)
(** ** Decoding ([core::str::next_code_point], [next_code_point_reverse]) *)

Definition CONT_MASK : Z := 63.

(** [utf8_first_byte(byte, width) = (byte & (0x7F >> width)) as u32] *)
Definition utf8_first_byte (byte : Z) (width : Z) : Z :=
  Z.land byte (Z.shiftr 127 width).

(** [utf8_acc_cont_byte(ch, byte) = (ch << 6) | (byte & CONT_MASK)] *)
Definition utf8_acc_cont_byte (ch byte : Z) : Z :=
  Z.lor (Z.shiftl ch 6) (Z.land byte CONT_MASK).

(** Forward decoding of the next char; [unwrap_unchecked] on a missing byte
    (unreachable on a [&str]) ends the iteration. *)
Definition next_code_point (bytes : list Z) : option (Z * list Z) :=
  match bytes with
  | [] => None
  | x :: r0 =>
      if x <? 128 then Some (x, r0)
      else
        let init := utf8_first_byte x 2 in
        match r0 with
        | [] => None
        | y :: r1 =>
            let ch := utf8_acc_cont_byte init y in
            if x <? 224 then Some (ch, r1)
            else
              match r1 with
              | [] => None
              | z :: r2 =>
                  let y_z := utf8_acc_cont_byte (Z.land y CONT_MASK) z in
                  let ch := Z.lor (Z.shiftl init 12) y_z in
                  if x <? 240 then Some (ch, r2)
                  else
                    match r2 with
                    | [] => None
                    | w :: r3 =>
                        Some (Z.lor (Z.shiftl (Z.land init 7) 18)
                                    (utf8_acc_cont_byte y_z w), r3)
                    end
              end
        end
  end.

(** Backward decoding of the last char.  The argument is the byte sequence
    reversed (its head is the last byte); the result carries the reversed
    remaining prefix. *)
Definition next_code_point_reverse (rbytes : list Z) : option (Z * list Z) :=
  match rbytes with
  | [] => None
  | w :: r1 =>
      if w <? 128 then Some (w, r1)
      else
        match r1 with
        | [] => None
        | z :: r2 =>
            if utf8_is_cont_byte z then
              match r2 with
              | [] => None
              | y :: r3 =>
                  if utf8_is_cont_byte y then
                    match r3 with
                    | [] => None
                    | x :: r4 =>
                        let ch := utf8_first_byte x 4 in
                        let ch := utf8_acc_cont_byte ch y in
                        let ch := utf8_acc_cont_byte ch z in
                        Some (utf8_acc_cont_byte ch w, r4)
                    end
                  else
                    let ch := utf8_first_byte y 3 in
                    let ch := utf8_acc_cont_byte ch z in
                    Some (utf8_acc_cont_byte ch w, r3)
              end
            else
              let ch := utf8_first_byte z 2 in
              Some (utf8_acc_cont_byte ch w, r2)
        end
  end.

(* ------------------------------------------------------------------ *)
(** ** [str::trim] *)

(** [char::is_whitespace]:
    [' ' | '\x09'..='\x0d' => true, c => c > '\x7f' && White_Space(c)]. *)
Definition is_whitespace (c : Z) : bool :=
  Z.eqb c 32 || in_range 9 13 c
  || ((127 <? c) &&
      (Z.eqb c 133 || Z.eqb c 160 || Z.eqb c 5760 || in_range 8192 8202 c
       || Z.eqb c 8232 || Z.eqb c 8233 || Z.eqb c 8239 || Z.eqb c 8287
       || Z.eqb c 12288)).

(** [matcher.next_reject()] of [trim_matches]: the byte range [(a, b)] of the
    first char that is not whitespace.  [off] is the offset of [s]. *)
Fixpoint next_reject (fuel : nat) (s : list Z) (off : nat) : option (nat * nat) :=
  match fuel with
  | O => None
  | S fuel' =>
      match next_code_point s with
      | None => None
      | Some (c, r) =>
          let w := (length s - length r)%nat in
          if is_whitespace c then next_reject fuel' r (off + w)
          else Some (off, (off + w)%nat)
      end
  end.

(** [matcher.next_reject_back()]: drops whitespace chars from the back of
    the (reversed) remaining bytes, returns what is left, reversed. *)
Fixpoint next_reject_back (fuel : nat) (r : list Z) : list Z :=
  match fuel with
  | O => r
  | S fuel' =>
      match next_code_point_reverse r with
      | None => r
      | Some (c, r') => if is_whitespace c then next_reject_back fuel' r' else r
      end
  end.

(** [trim_matches]: [i = j = 0]; [if let Some((a, b)) = next_reject() { i = a; j = b }];
    [if let Some((_, b)) = next_reject_back() { j = b }]; the back search
    only sees the bytes after the front reject. *)
Definition trim_span (s : list Z) : nat * nat :=
  match next_reject (length s) s 0 with
  | None => (0%nat, 0%nat)
  | Some (a, b) =>
      let rest := skipn b s in
      (a, (b + length (next_reject_back (length rest) (rev rest)))%nat)
  end.

(** [str::trim] = [trim_matches(char::is_whitespace)], [get_unchecked(i..j)]. *)
Definition trim (s : list Z) : list Z :=
  let '(i, j) := trim_span s in firstn (j - i) (skipn i s).

(* ------------------------------------------------------------------ *)
(** ** [str::rfind(&['.', '!', '?'][..])] *)

Definition is_sentence_end (c : Z) : bool :=
  Z.eqb c 46 || Z.eqb c 33 || Z.eqb c 63.

(** Iterates [char_indices().next_back()]; the index of a char is the
    length of the prefix before it. *)
Fixpoint rfind_loop (fuel : nat) (r : list Z) : option nat :=
  match fuel with
  | O => None
  | S fuel' =>
      match next_code_point_reverse r with
      | None => None
      | Some (c, r') =>
          if is_sentence_end c then Some (length r') else rfind_loop fuel' r'
      end
  end.

Definition rfind_sentence_end (haystack : list Z) : option nat :=
  rfind_loop (length haystack) (rev haystack).

(* ------------------------------------------------------------------ *)
(** ** Chunk records and options *)

(** [struct DocumentChunk] (lines 53-62); the geometry fields are the
    constants written by both loops. *)
Record DocumentChunk := mkChunk {
  index : nat;
  page_number : nat;
  text : list Z;
  confidence : float;
  x : float;
  y : float;
  width : float;
  height : float
}.

(** [struct ChunkOptions] (lines 67-72). *)
Record ChunkOptions := mkOptions {
  max_chunk_size : nat;
  overlap : nat;
  preserve_sentence_boundaries : bool;
  include_metadata : bool
}.

(** The options used when [options.is_null()]. *)
Definition default_options : ChunkOptions := mkOptions 512 50 true true.

(** A loop run: finished, panicked (bad slice), or stopped for lack of fuel
    (which a terminating loop never does). *)
Inductive outcome (A : Type) : Type :=
| Done (a : A)
| Panic
| OutOfFuel.
Arguments Done {A} a.
Arguments Panic {A}.
Arguments OutOfFuel {A}.

Definition is_empty (s : list Z) : bool :=
  match s with [] => true | _ => false end.

Open Scope nat_scope.

(* ------------------------------------------------------------------ *)
(** ** The chunking loop of [oxidize_extract_chunks] (lines 262-328) *)

(** The [while byte_start < page_content.len()] loop for one page, with the
    state [(byte_start, chunks, chunk_index)]; [page_num] is the 0-based
    page index of [enumerate()]. *)
Fixpoint extract_chunks_page_loop (fuel : nat) (chunk_opts : ChunkOptions)
    (page_num : nat) (page_content : list Z)
    (byte_start : nat) (chunks : list DocumentChunk) (chunk_index : nat)
    : outcome (list DocumentChunk * nat) :=
  match fuel with
  | O => OutOfFuel
  | S fuel' =>
    if byte_start <? length page_content then
      let start := find_char_boundary page_content byte_start in
      if length page_content <=? start then Done (chunks, chunk_index) else
      let raw_end := Nat.min (start + max_chunk_size chunk_opts) (length page_content) in
      let end_ := find_char_boundary page_content raw_end in
      let chunk_end :=
        if preserve_sentence_boundaries chunk_opts && (end_ <? length page_content) then
          let raw_search_start :=
            start + Nat.min (max_chunk_size chunk_opts * 4 / 5) (end_ - start) in
          let search_start := find_char_boundary page_content raw_search_start in
          if search_start <? end_ then
            match str_slice page_content search_start end_ with
            | None => None
            | Some window =>
                Some (match rfind_sentence_end window with
                      | Some i => find_char_boundary page_content (search_start + i + 1)
                      | None => end_
                      end)
            end
          else Some end_
        else Some end_ in
      match chunk_end with
      | None => Panic
      | Some chunk_end =>
        match str_slice page_content start chunk_end with
        | None => Panic
        | Some slice =>
          let chunk_text := trim slice in
          let '(chunks, chunk_index) :=
            if negb (is_empty chunk_text) then
              (chunks ++ [mkChunk chunk_index (page_num + 1) chunk_text
                            1.0%float 0.0%float 0.0%float 0.0%float 0.0%float],
               chunk_index + 1)
            else (chunks, chunk_index) in
          let next_start := chunk_end - overlap chunk_opts in
          if (next_start <=? byte_start) || (length page_content <=? chunk_end)
          then Done (chunks, chunk_index)
          else extract_chunks_page_loop fuel' chunk_opts page_num page_content
                 next_start chunks chunk_index
        end
      end
    else Done (chunks, chunk_index)
  end.

(** [for (page_num, page_text) in text_pages.iter().enumerate()]; each page
    starts with [byte_start = 0] and the loop runs with fuel [len + 1]. *)
Fixpoint extract_chunks_pages (chunk_opts : ChunkOptions) (pages : list (list Z))
    (page_num : nat) (chunks : list DocumentChunk) (chunk_index : nat)
    : outcome (list DocumentChunk) :=
  match pages with
  | [] => Done chunks
  | page_content :: rest =>
      match extract_chunks_page_loop (S (length page_content)) chunk_opts page_num
              page_content 0 chunks chunk_index with
      | Done (chunks, chunk_index) =>
          extract_chunks_pages chunk_opts rest (S page_num) chunks chunk_index
      | Panic => Panic
      | OutOfFuel => OutOfFuel
      end
  end.

(** All chunks of a document: [chunks = Vec::new()], [chunk_index = 0]. *)
Definition extract_chunks_all (chunk_opts : ChunkOptions) (pages : list (list Z))
    : outcome (list DocumentChunk) :=
  extract_chunks_pages chunk_opts pages 0 [] 0.

(* ------------------------------------------------------------------ *)
(** ** The chunking loop of [oxidize_extract_chunks_from_page] (lines 560-614) *)

(** Here [page_number] is the caller's 1-based page number. *)
Fixpoint page_chunks_loop (fuel : nat) (chunk_opts : ChunkOptions)
    (page_number : nat) (page_content : list Z)
    (byte_start : nat) (chunks : list DocumentChunk) (chunk_index : nat)
    : outcome (list DocumentChunk * nat) :=
  match fuel with
  | O => OutOfFuel
  | S fuel' =>
    if byte_start <? length page_content then
      let start := find_char_boundary page_content byte_start in
      if length page_content <=? start then Done (chunks, chunk_index) else
      let raw_end := Nat.min (start + max_chunk_size chunk_opts) (length page_content) in
      let end_ := find_char_boundary page_content raw_end in
      let chunk_end :=
        if preserve_sentence_boundaries chunk_opts && (end_ <? length page_content) then
          let raw_search_start :=
            start + Nat.min (max_chunk_size chunk_opts * 4 / 5) (end_ - start) in
          let search_start := find_char_boundary page_content raw_search_start in
          if search_start <? end_ then
            match str_slice page_content search_start end_ with
            | None => None
            | Some window =>
                Some (match rfind_sentence_end window with
                      | Some i => find_char_boundary page_content (search_start + i + 1)
                      | None => end_
                      end)
            end
          else Some end_
        else Some end_ in
      match chunk_end with
      | None => Panic
      | Some chunk_end =>
        match str_slice page_content start chunk_end with
        | None => Panic
        | Some slice =>
          let chunk_text := trim slice in
          let '(chunks, chunk_index) :=
            if negb (is_empty chunk_text) then
              (chunks ++ [mkChunk chunk_index page_number chunk_text
                            1.0%float 0.0%float 0.0%float 0.0%float 0.0%float],
               chunk_index + 1)
            else (chunks, chunk_index) in
          let next_start := chunk_end - overlap chunk_opts in
          if (next_start <=? byte_start) || (length page_content <=? chunk_end)
          then Done (chunks, chunk_index)
          else page_chunks_loop fuel' chunk_opts page_number page_content
                 next_start chunks chunk_index
        end
      end
    else Done (chunks, chunk_index)
  end.

(** The chunks of one page: [chunks = Vec::new()], [chunk_index = 0],
    [byte_start = 0]. *)
Definition page_chunks (chunk_opts : ChunkOptions) (page_number : nat)
    (page_content : list Z) : outcome (list DocumentChunk) :=
  match page_chunks_loop (S (length page_content)) chunk_opts page_number
          page_content 0 [] 0 with
  | Done (chunks, _) => Done chunks
  | Panic => Panic
  | OutOfFuel => OutOfFuel
  end.

(* ------------------------------------------------------------------ *)
(** ** Views used by the proofs *)

(** The [chunk_end] both loops compute from [start] (lines 278-302 and
    570-591), as one function. *)
Definition chunk_end_of (chunk_opts : ChunkOptions) (page_content : list Z)
    (start : nat) : option nat :=
  let raw_end := Nat.min (start + max_chunk_size chunk_opts) (length page_content) in
  let end_ := find_char_boundary page_content raw_end in
  if preserve_sentence_boundaries chunk_opts && (end_ <? length page_content) then
    let raw_search_start :=
      start + Nat.min (max_chunk_size chunk_opts * 4 / 5) (end_ - start) in
    let search_start := find_char_boundary page_content raw_search_start in
    if search_start <? end_ then
      match str_slice page_content search_start end_ with
      | None => None
      | Some window =>
          Some (match rfind_sentence_end window with
                | Some i => find_char_boundary page_content (search_start + i + 1)
                | None => end_
                end)
      end
    else Some end_
  else Some end_.

(** The bytes [s[a..b]]. *)
Definition substring (s : list Z) (a b : nat) : list Z := firstn (b - a) (skipn a s).

(** A chunk of page [s] is cut from a window [s[start..ce]] of the page: both
    ends are character boundaries, [ce] is at most the end of the
    [max_chunk_size] window snapped forward, and the text is the trimmed,
    non-empty slice. *)
Definition chunk_window_ok (opts : ChunkOptions) (s : list Z) (c : DocumentChunk) : Prop :=
  exists start ce,
    start < length s /\ is_char_boundary s start = true /\
    start <= ce /\
    ce <= find_char_boundary s (Nat.min (start + max_chunk_size opts) (length s)) /\
    is_char_boundary s ce = true /\
    text c = trim (substring s start ce) /\ text c <> [].

(** An ASCII byte. *)
Definition is_ascii_byte (b : Z) : bool := ((0 <=? b) && (b <? 128))%Z.

(** The byte offsets of ['.'], ['!'] and ['?'] in [s], counted from [k]. *)
Fixpoint sentence_end_offsets_from (k : nat) (s : list Z) : list nat :=
  match s with
  | [] => []
  | b :: t =>
      if is_sentence_end b then k :: sentence_end_offsets_from (S k) t
      else sentence_end_offsets_from (S k) t
  end.

Definition sentence_end_offsets (s : list Z) : list nat := sentence_end_offsets_from 0 s.

(* ------------------------------------------------------------------ *)
(** ** The C ABI layer *)

Import (notations) Stdlib.Strings.String.

(** A Rust string literal as its bytes. *)
Definition bytes_of (s : String.string) : list Z :=
  map (fun a => Z.of_nat (Ascii.nat_of_ascii a)) (String.list_ascii_of_string s).

(** [format!("{}", n)] for a [usize]: its decimal digits. *)
Fixpoint fmt_usize_aux (fuel n : nat) : list Z :=
  match fuel with
  | O => []
  | S fuel' =>
      (if n <? 10 then [] else fmt_usize_aux fuel' (n / 10)) ++ [Z.of_nat (48 + n mod 10)]
  end.

Definition fmt_usize (n : nat) : list Z := fmt_usize_aux (S n) n.

(** [enum ErrorCode] (lines 41-49). *)
Inductive ErrorCode :=
| Success
| NullPointer
| InvalidUtf8
| PdfParseError
| AllocationError
| SerializationError.

(** A [*mut c_char]. *)
Inductive cptr :=
| NullPtr
| Ptr (addr : nat).

(** What the entry points act on: the thread-local [LAST_ERROR] of the
    calling thread (lines 11-13), and the [CString] buffers handed to the
    caller by [into_raw] and not yet freed, by address. *)
Record World := mkWorld {
  last_error : option (list Z);
  heap : list (nat * list Z);
  next_addr : nat
}.

(** [set_last_error] (lines 16-18). *)
Definition set_last_error (msg : list Z) (w : World) : World :=
  mkWorld (Some msg) (heap w) (next_addr w).

(** [clear_last_error] (lines 21-23). *)
Definition clear_last_error (w : World) : World :=
  mkWorld None (heap w) (next_addr w).

(** The position of the first nul byte. *)
Fixpoint find_nul (v : list Z) : option nat :=
  match v with
  | [] => None
  | b :: t => if (b =? 0)%Z then Some 0 else option_map S (find_nul t)
  end.

(** [CString::new(v)]: [Err(NulError(pos, v))] if [v] holds a nul byte. *)
Definition cstring_new (v : list Z) : list Z + nat :=
  match find_nul v with
  | Some pos => inr pos
  | None => inl v
  end.

(** [impl Display for NulError]. *)
Definition display_nul_error (pos : nat) : list Z :=
  bytes_of "nul byte found in provided data at position: " ++ fmt_usize pos.

(** [CString::into_raw]: the buffer, with its terminating nul, now belongs to
    the caller. *)
Definition into_raw (c : list Z) (w : World) : cptr * World :=
  (Ptr (next_addr w),
   mkWorld (last_error w) ((next_addr w, c ++ [0%Z]) :: heap w) (S (next_addr w))).

(** [oxidize_free_string] (lines 81-86); [None] is undefined behaviour
    ([CString::from_raw] on a pointer that is not a live buffer). *)
Definition oxidize_free_string (w : World) (ptr : cptr) : option World :=
  match ptr with
  | NullPtr => Some w
  | Ptr a =>
      match find (fun e => fst e =? a) (heap w) with
      | Some _ =>
          Some (mkWorld (last_error w) (filter (fun e => negb (fst e =? a)) (heap w))
                  (next_addr w))
      | None => None
      end
  end.

(** [oxidize_get_last_error] (lines 95-115); [out_error] is [None] when the
    pointer is null, else the current contents of [*out_error]. *)
Definition oxidize_get_last_error (w : World) (out_error : option cptr)
    : ErrorCode * World * option cptr :=
  match out_error with
  | None => (NullPointer, w, None)
  | Some _ =>
      match last_error w with
      | Some msg =>
          if negb (is_empty msg) then
            match cstring_new msg with
            | inl c_string => let '(p, w') := into_raw c_string w in (Success, w', Some p)
            | inr _ => (InvalidUtf8, w, Some NullPtr)
            end
          else (Success, w, Some NullPtr)
      | None => (Success, w, Some NullPtr)
      end
  end.

(** The crate [oxidize_pdf] and [serde_json], which the entry points call:
    [PdfReader::new(Cursor::new(bytes))], [PdfDocument::new(reader)
    .extract_text()] (the [text] of each page), [serde_json::to_string], with
    the [Display] text of their errors, and the crate version. *)
Class PdfBackend := {
  PdfReader : Type;
  pdf_reader_new : list Z -> PdfReader + list Z;
  pdf_document_extract_text : PdfReader -> list (list Z) + list Z;
  serde_json_to_string : list DocumentChunk -> list Z + list Z;
  CARGO_PKG_VERSION : list Z
}.

(** [text_pages.iter().map(|p| p.text.as_str()).collect::<Vec<_>>().join("\n\n")]. *)
Fixpoint join_pages (pages : list (list Z)) : list Z :=
  match pages with
  | [] => []
  | [p] => p
  | p :: rest => p ++ [10%Z; 10%Z] ++ join_pages rest
  end.

Section Abi.
Context `{B : PdfBackend}.

(** The parse and extract steps shared by the entry points, with their
    diagnostics (e.g. lines 146-162). *)
Definition load_pages (bytes : list Z) : list (list Z) + list Z :=
  match pdf_reader_new bytes with
  | inr e => inr (bytes_of "Failed to parse PDF: " ++ e)
  | inl reader =>
      match pdf_document_extract_text reader with
      | inr e => inr (bytes_of "Failed to extract text from PDF: " ++ e)
      | inl pages => inl pages
      end
  end.

(** [oxidize_extract_text] (lines 124-191).  [pdf_bytes] is [None] when the
    pointer is null, else the [pdf_len] bytes; [out_text] is [None] when the
    pointer is null, else the current contents of [*out_text].  The result
    is the status, the world after the call and the contents of the output
    location. *)
Definition oxidize_extract_text (w : World) (pdf_bytes : option (list Z))
    (out_text : option cptr) : ErrorCode * World * option cptr :=
  let w := clear_last_error w in
  match pdf_bytes, out_text with
  | Some bytes, Some _ =>
      if is_empty bytes then
        (PdfParseError, set_last_error (bytes_of "PDF data is empty (0 bytes)") w, Some NullPtr)
      else
      match load_pages bytes with
      | inr msg => (PdfParseError, set_last_error msg w, Some NullPtr)
      | inl text_pages =>
          match cstring_new (join_pages text_pages) with
          | inr e =>
              (InvalidUtf8,
               set_last_error (bytes_of "Text contains invalid UTF-8: " ++ display_nul_error e) w,
               Some NullPtr)
          | inl c_string => let '(p, w') := into_raw c_string w in (Success, w', Some p)
          end
      end
  | _, _ =>
      (NullPointer,
       set_last_error (bytes_of "Null pointer provided to oxidize_extract_text") w, out_text)
  end.

(** Serializing the chunks and handing the JSON over (lines 330-351 and
    616-633). *)
Definition hand_over_chunks (chunks : list DocumentChunk) (w : World)
    : ErrorCode * World * option cptr :=
  match serde_json_to_string chunks with
  | inr e =>
      (SerializationError,
       set_last_error (bytes_of "Failed to serialize chunks to JSON: " ++ e) w, Some NullPtr)
  | inl json =>
      match cstring_new json with
      | inr e =>
          (InvalidUtf8,
           set_last_error (bytes_of "JSON contains invalid UTF-8: " ++ display_nul_error e) w,
           Some NullPtr)
      | inl c_string => let '(p, w') := into_raw c_string w in (Success, w', Some p)
      end
  end.

(** [options.is_null()] gives the defaults, else [*options]. *)
Definition chunk_options_of (options : option ChunkOptions) : ChunkOptions :=
  match options with
  | None => default_options
  | Some o => o
  end.

(** [oxidize_extract_chunks] (lines 201-352); a panic of the chunking loop
    would be [Panic]. *)
Definition oxidize_extract_chunks (w : World) (pdf_bytes : option (list Z))
    (options : option ChunkOptions) (out_json : option cptr)
    : outcome (ErrorCode * World * option cptr) :=
  let w := clear_last_error w in
  match pdf_bytes, out_json with
  | Some bytes, Some _ =>
      if is_empty bytes then
        Done (PdfParseError, set_last_error (bytes_of "PDF data is empty (0 bytes)") w,
              Some NullPtr)
      else
      let chunk_opts := chunk_options_of options in
      match load_pages bytes with
      | inr msg => Done (PdfParseError, set_last_error msg w, Some NullPtr)
      | inl text_pages =>
          match extract_chunks_all chunk_opts text_pages with
          | Done chunks => Done (hand_over_chunks chunks w)
          | Panic => Panic
          | OutOfFuel => OutOfFuel
          end
      end
  | _, _ =>
      Done (NullPointer,
            set_last_error (bytes_of "Null pointer provided to oxidize_extract_chunks") w,
            out_json)
  end.

(** [oxidize_get_page_count] (lines 361-402); [out_count] is [None] when
    the pointer is null, else the current contents of [*out_count]. *)
Definition oxidize_get_page_count (w : World) (pdf_bytes : option (list Z))
    (out_count : option nat) : ErrorCode * World * option nat :=
  let w := clear_last_error w in
  match pdf_bytes, out_count with
  | Some bytes, Some _ =>
      if is_empty bytes then
        (PdfParseError, set_last_error (bytes_of "PDF data is empty (0 bytes)") w, Some 0)
      else
      match load_pages bytes with
      | inr msg => (PdfParseError, set_last_error msg w, Some 0)
      | inl text_pages => (Success, w, Some (length text_pages))
      end
  | _, _ =>
      (NullPointer,
       set_last_error (bytes_of "Null pointer provided to oxidize_get_page_count") w, out_count)
  end.

(** The diagnostic of an out-of-range page number (lines 458-462). *)
Definition page_out_of_range_msg (page_number pages : nat) : list Z :=
  bytes_of "Page number " ++ fmt_usize page_number ++
  bytes_of " is out of range (PDF has " ++ fmt_usize pages ++ bytes_of " pages)".

(** [oxidize_extract_text_from_page] (lines 412-479). *)
Definition oxidize_extract_text_from_page (w : World) (pdf_bytes : option (list Z))
    (page_number : nat) (out_text : option cptr) : ErrorCode * World * option cptr :=
  let w := clear_last_error w in
  match pdf_bytes, out_text with
  | Some bytes, Some _ =>
      if is_empty bytes then
        (PdfParseError, set_last_error (bytes_of "PDF data is empty (0 bytes)") w, Some NullPtr)
      else if page_number =? 0 then
        (PdfParseError,
         set_last_error (bytes_of "Page number must be >= 1 (1-based indexing)") w, Some NullPtr)
      else
      match load_pages bytes with
      | inr msg => (PdfParseError, set_last_error msg w, Some NullPtr)
      | inl text_pages =>
          let page_index := page_number - 1 in
          if length text_pages <=? page_index then
            (PdfParseError,
             set_last_error (page_out_of_range_msg page_number (length text_pages)) w,
             Some NullPtr)
          else
          let text := nth page_index text_pages [] in
          match cstring_new text with
          | inr e =>
              (InvalidUtf8,
               set_last_error (bytes_of "Text contains invalid UTF-8: " ++ display_nul_error e) w,
               Some NullPtr)
          | inl c_string => let '(p, w') := into_raw c_string w in (Success, w', Some p)
          end
      end
  | _, _ =>
      (NullPointer,
       set_last_error (bytes_of "Null pointer provided to oxidize_extract_text_from_page") w,
       out_text)
  end.

(** [oxidize_extract_chunks_from_page] (lines 490-634). *)
Definition oxidize_extract_chunks_from_page (w : World) (pdf_bytes : option (list Z))
    (page_number : nat) (options : option ChunkOptions) (out_json : option cptr)
    : outcome (ErrorCode * World * option cptr) :=
  let w := clear_last_error w in
  match pdf_bytes, out_json with
  | Some bytes, Some _ =>
      if is_empty bytes then
        Done (PdfParseError, set_last_error (bytes_of "PDF data is empty (0 bytes)") w,
              Some NullPtr)
      else if page_number =? 0 then
        Done (PdfParseError,
              set_last_error (bytes_of "Page number must be >= 1 (1-based indexing)") w,
              Some NullPtr)
      else
      let chunk_opts := chunk_options_of options in
      match load_pages bytes with
      | inr msg => Done (PdfParseError, set_last_error msg w, Some NullPtr)
      | inl text_pages =>
          let page_index := page_number - 1 in
          if length text_pages <=? page_index then
            Done (PdfParseError,
                  set_last_error (page_out_of_range_msg page_number (length text_pages)) w,
                  Some NullPtr)
          else
          let page_content := nth page_index text_pages [] in
          match page_chunks chunk_opts page_number page_content with
          | Done chunks => Done (hand_over_chunks chunks w)
          | Panic => Panic
          | OutOfFuel => OutOfFuel
          end
      end
  | _, _ =>
      Done (NullPointer,
            set_last_error
              (bytes_of "Null pointer provided to oxidize_extract_chunks_from_page") w,
            out_json)
  end.

(** [oxidize_version] (lines 642-663). *)
Definition oxidize_version (w : World) (out_version : option cptr)
    : ErrorCode * World * option cptr :=
  match out_version with
  | None => (NullPointer, w, None)
  | Some _ =>
      let version :=
        bytes_of "oxidize-pdf-ffi v" ++ CARGO_PKG_VERSION ++ bytes_of " (oxidize-pdf v1.6.4)" in
      match cstring_new version with
      | inr _ => (InvalidUtf8, w, Some NullPtr)
      | inl c_string => let '(p, w') := into_raw c_string w in (Success, w', Some p)
      end
  end.

End Abi.

(** After a failed call: no buffer was handed over, a [NullPointer] status
    left the output location as it was, and any other failure left it
    null. *)
Definition failure_leaves_outputs {O : Type} (empty : O) (w : World) (out : option O)
    (r : ErrorCode * World * option O) : Prop :=
  let '(code, w', out') := r in
  code <> Success ->
  heap w' = heap w /\ next_addr w' = next_addr w /\
  match code with NullPointer => out' = out | _ => out' = Some empty end.

(** A backend for concrete runs: a document is its own single page, and
    [serde_json] writes the texts of the chunks one after the other. *)
Definition one_page_backend : PdfBackend := {|
  PdfReader := list Z;
  pdf_reader_new := fun bytes => inl bytes;
  pdf_document_extract_text := fun reader => inl [reader];
  serde_json_to_string := fun chunks => inl (concat (map text chunks));
  CARGO_PKG_VERSION := bytes_of "0.3.0"
|}.

(* ------------------------------------------------------------------ *)
(** ** Views of the ABI state used by the proofs *)

(** The bytes of the live buffer at address [a], if any. *)
Definition lookup_buffer (w : World) (a : nat) : option (list Z) :=
  option_map snd (find (fun e => fst e =? a) (heap w)).

(** The heap is well formed: live buffers have distinct addresses, all below
    [next_addr]. *)
Definition heap_ok (w : World) : Prop :=
  Forall (fun e => fst e < next_addr w) (heap w) /\ NoDup (map fst (heap w)).

(** The world a call leaves. *)
Definition world_after {O : Type} (r : ErrorCode * World * option O) : World :=
  snd (fst r).

(** After a call: [Success] leaves no diagnostic, any other status a
    non-empty one. *)
Definition diagnostic_matches_status {O : Type} (r : ErrorCode * World * option O) : Prop :=
  let '(code, w', _) := r in
  match code with
  | Success => last_error w' = None
  | _ => exists msg, last_error w' = Some msg /\ msg <> []
  end.

(** A [Success] call hands over one new buffer: a nul-terminated copy of a
    string without nul bytes, which [oxidize_free_string] releases once,
    giving back the heap from before the call; a second release is undefined
    behaviour. *)
Definition success_hands_over_buffer (w : World) (r : ErrorCode * World * option cptr)
    : Prop :=
  let '(code, w', out) := r in
  code = Success ->
  exists a c w'',
    out = Some (Ptr a) /\ find_nul c = None /\ lookup_buffer w' a = Some (c ++ [0%Z]) /\
    oxidize_free_string w' (Ptr a) = Some w'' /\ heap w'' = heap w /\
    oxidize_free_string w'' (Ptr a) = None.

(** What identifies a chunk apart from its index. *)
Definition chunk_key (c : DocumentChunk) : nat * list Z := (page_number c, text c).

(** A property of the result of a call that does not panic. *)
Definition on_done {A : Type} (P : A -> Prop) (o : outcome A) : Prop :=
  match o with
  | Done r => P r
  | _ => True
  end.

(** The effect of a call on the buffers: it leaves them as they were, or it
    returns [Success] and hands over one new buffer, a nul-terminated string
    without nul bytes, at [next_addr]. *)
Definition keeps_or_hands_over (w : World) (r : ErrorCode * World * option cptr) : Prop :=
  let '(code, w', out) := r in
  (heap w' = heap w /\ next_addr w' = next_addr w) \/
  (code = Success /\ exists c, find_nul c = None /\ out = Some (Ptr (next_addr w)) /\
     heap w' = (next_addr w, c ++ [0%Z]) :: heap w /\ next_addr w' = S (next_addr w)).

(** The same, where every [Success] hands a buffer over. *)
Definition fails_or_hands_over (w : World) (r : ErrorCode * World * option cptr) : Prop :=
  let '(code, w', out) := r in
  (code <> Success /\ heap w' = heap w /\ next_addr w' = next_addr w) \/
  (code = Success /\ exists c, find_nul c = None /\ out = Some (Ptr (next_addr w)) /\
     heap w' = (next_addr w, c ++ [0%Z]) :: heap w /\ next_addr w' = S (next_addr w)).

(** A call from [w] to [w'] keeps the heap well formed and every buffer
    live in [w] live in [w'] with the same contents. *)
Definition buffers_kept (w w' : World) : Prop :=
  heap_ok w' /\ forall b v, lookup_buffer w b = Some v -> lookup_buffer w' b = Some v.

(* ================================================================== *)
(** * Proofs *)

(** Turning boolean comparisons into propositions. *)
Ltac bool_facts :=
  repeat match goal with
  | H : (_ && _)%bool = true |- _ => apply andb_true_iff in H; destruct H
  | H : (_ || _)%bool = false |- _ => apply orb_false_iff in H; destruct H
  | H : (_ <=? _)%Z = true |- _ => apply Z.leb_le in H
  | H : (_ <=? _)%Z = false |- _ => apply Z.leb_gt in H
  | H : (_ <? _)%Z = true |- _ => apply Z.ltb_lt in H
  | H : (_ <? _)%Z = false |- _ => apply Z.ltb_ge in H
  | H : Z.eqb _ _ = true |- _ => apply Z.eqb_eq in H
  | H : Z.eqb _ _ = false |- _ => apply Z.eqb_neq in H
  | H : (_ <=? _) = true |- _ => apply Nat.leb_le in H
  | H : (_ <=? _) = false |- _ => apply Nat.leb_gt in H
  | H : (_ <? _) = true |- _ => apply Nat.ltb_lt in H
  | H : (_ <? _) = false |- _ => apply Nat.ltb_ge in H
  | H : (_ =? _) = true |- _ => apply Nat.eqb_eq in H
  | H : (_ =? _) = false |- _ => apply Nat.eqb_neq in H
  end.

(* ------------------------------------------------------------------ *)
(** ** [find_char_boundary] *)

Section CharBoundary.

Variable s : list Z.

Lemma is_char_boundary_len : is_char_boundary s (length s) = true.
Proof.
  unfold is_char_boundary.
  rewrite (proj2 (nth_error_None s (length s)) (le_n _)), Nat.eqb_refl.
  apply orb_true_r.
Qed.

Lemma find_char_boundary_loop_spec : forall fuel i,
  i <= length s -> length s <= i + fuel ->
  let r := find_char_boundary_loop fuel s i in
  i <= r <= length s /\ is_char_boundary s r = true /\
  (forall k, i <= k < r -> is_char_boundary s k = false).
Proof.
  induction fuel as [|fuel IH]; intros i Hi Hf; simpl.
  - assert (i = length s) by lia; subst i.
    split; [lia|]. split; [apply is_char_boundary_len | intros; lia].
  - destruct (i <? length s) eqn:Hlt; simpl.
    + destruct (is_char_boundary s i) eqn:Hb; simpl.
      * split; [lia|]. split; [assumption | intros; lia].
      * bool_facts. destruct (IH (S i)) as (H1 & H2 & H3); [lia | lia |].
        split; [lia|]. split; [assumption|].
        intros k Hk. destruct (Nat.eq_dec k i); [subst; assumption | apply H3; lia].
    + bool_facts. assert (i = length s) by lia; subst i.
      split; [lia|]. split; [apply is_char_boundary_len | intros; lia].
Qed.

Lemma find_char_boundary_spec : forall i, i <= length s ->
  i <= find_char_boundary s i <= length s /\
  is_char_boundary s (find_char_boundary s i) = true /\
  (forall k, i <= k < find_char_boundary s i -> is_char_boundary s k = false).
Proof.
  intros i Hi. unfold find_char_boundary.
  destruct (length s <=? i) eqn:E; bool_facts.
  - assert (i = length s) by lia; subst.
    split; [lia|]. split; [apply is_char_boundary_len | intros; lia].
  - apply find_char_boundary_loop_spec; lia.
Qed.

Lemma find_char_boundary_beyond : forall i, length s <= i ->
  find_char_boundary s i = length s.
Proof.
  intros i Hi. unfold find_char_boundary.
  destruct (length s <=? i) eqn:E; bool_facts; [reflexivity | lia].
Qed.

Lemma find_char_boundary_le_len : forall i, find_char_boundary s i <= length s.
Proof.
  intros i. destruct (Nat.le_gt_cases i (length s)).
  - apply find_char_boundary_spec; assumption.
  - rewrite find_char_boundary_beyond; lia.
Qed.

Lemma find_char_boundary_boundary : forall i,
  is_char_boundary s (find_char_boundary s i) = true.
Proof.
  intros i. destruct (Nat.le_gt_cases i (length s)).
  - apply find_char_boundary_spec; assumption.
  - rewrite find_char_boundary_beyond by lia. apply is_char_boundary_len.
Qed.

(** The result is the first boundary at or after [i]. *)
Lemma find_char_boundary_least : forall i b,
  i <= b -> b <= length s -> is_char_boundary s b = true ->
  find_char_boundary s i <= b.
Proof.
  intros i b Hib Hb Hbd.
  destruct (find_char_boundary_spec i) as (H1 & H2 & H3); [lia|].
  destruct (Nat.le_gt_cases (find_char_boundary s i) b); [assumption|].
  rewrite H3 in Hbd by lia. discriminate.
Qed.

Lemma str_slice_ok : forall a b,
  a <= b -> b <= length s -> is_char_boundary s a = true ->
  is_char_boundary s b = true ->
  str_slice s a b = Some (firstn (b - a) (skipn a s)).
Proof.
  intros a b Hab Hb Ha Hb'. unfold str_slice.
  rewrite Ha, Hb'. apply Nat.leb_le in Hab. apply Nat.leb_le in Hb.
  rewrite Hab, Hb. reflexivity.
Qed.

End CharBoundary.

(* ------------------------------------------------------------------ *)
(** ** Structure of valid UTF-8 *)

Lemma utf8_char_width_range : forall b,
  (utf8_char_width b = 2%nat -> 194 <= b <= 223)%Z /\
  (utf8_char_width b = 3%nat -> 224 <= b <= 239)%Z /\
  (utf8_char_width b = 4%nat -> 240 <= b <= 244)%Z.
Proof.
  intros b. unfold utf8_char_width.
  repeat match goal with |- context [if ?c then _ else _] => destruct c eqn:? end;
  bool_facts; repeat split; intros; try discriminate; lia.
Qed.

Lemma three_ok_cont : forall x a, three_ok x a = true -> (128 <= a <= 191)%Z.
Proof.
  intros x a H. unfold three_ok, in_range in H.
  repeat rewrite orb_true_iff in H. repeat destruct H as [H|H]; bool_facts; lia.
Qed.

Lemma four_ok_cont : forall x a, four_ok x a = true -> (128 <= a <= 191)%Z.
Proof.
  intros x a H. unfold four_ok, in_range in H.
  repeat rewrite orb_true_iff in H. repeat destruct H as [H|H]; bool_facts; lia.
Qed.

Ltac utf8_char_facts :=
  repeat match goal with
  | H : utf8_char_width ?b = 2 |- _ =>
      let R := fresh in pose proof (proj1 (utf8_char_width_range b) H) as R; clear H
  | H : utf8_char_width ?b = 3 |- _ =>
      let R := fresh in pose proof (proj1 (proj2 (utf8_char_width_range b)) H) as R; clear H
  | H : utf8_char_width ?b = 4 |- _ =>
      let R := fresh in pose proof (proj2 (proj2 (utf8_char_width_range b)) H) as R; clear H
  | H : three_ok _ _ = true |- _ => apply three_ok_cont in H
  | H : four_ok _ _ = true |- _ => apply four_ok_cont in H
  | H : utf8_is_cont_byte _ = true |- _ => unfold utf8_is_cont_byte in H
  | H : utf8_is_cont_byte _ = false |- _ => unfold utf8_is_cont_byte in H
  | _ => progress bool_facts
  end.

Lemma utf8_valid_inv : forall s, run_utf8_validation s = true ->
  s = [] \/ exists c r, s = c ++ r /\ utf8_char_ok c = true /\ run_utf8_validation r = true.
Proof.
  intros [|x r] H; [left; reflexivity | right]. simpl in H.
  destruct ((0 <=? x)%Z && (x <? 128)%Z) eqn:E.
  - exists [x], r. simpl. rewrite E. auto.
  - destruct (utf8_char_width x) as [|[|[|[|[|n]]]]] eqn:W; try discriminate;
    [destruct r as [|a r1] | destruct r as [|a [|b r2]] | destruct r as [|a [|b [|c r3]]]];
    try discriminate; bool_facts.
    + exists [x; a], r1. simpl. rewrite W. simpl. rewrite H. auto.
    + exists [x; a; b], r2. simpl. rewrite W, H, H1. auto.
    + exists [x; a; b; c], r3. simpl. rewrite W, H, H2, H1. auto.
Qed.

Lemma utf8_valid_char_app : forall c r,
  utf8_char_ok c = true -> run_utf8_validation r = true ->
  run_utf8_validation (c ++ r) = true.
Proof.
  intros c r Hc Hr.
  destruct c as [|x [|a [|b [|d [|e c]]]]]; simpl in Hc; try discriminate; simpl.
  - rewrite Hc. exact Hr.
  - apply andb_true_iff in Hc as [W Ha]. apply Nat.eqb_eq in W.
    pose proof (proj1 (utf8_char_width_range x) W).
    destruct ((0 <=? x)%Z && (x <? 128)%Z) eqn:E; [bool_facts; lia|].
    rewrite W, Ha. exact Hr.
  - apply andb_true_iff in Hc as [Hc Hb]. apply andb_true_iff in Hc as [W Ha].
    apply Nat.eqb_eq in W. pose proof (proj1 (proj2 (utf8_char_width_range x)) W).
    destruct ((0 <=? x)%Z && (x <? 128)%Z) eqn:E; [bool_facts; lia|].
    rewrite W, Ha, Hb. exact Hr.
  - apply andb_true_iff in Hc as [Hc Hd]. apply andb_true_iff in Hc as [Hc Hb].
    apply andb_true_iff in Hc as [W Ha].
    apply Nat.eqb_eq in W. pose proof (proj2 (proj2 (utf8_char_width_range x)) W).
    destruct ((0 <=? x)%Z && (x <? 128)%Z) eqn:E; [bool_facts; lia|].
    rewrite W, Ha, Hb, Hd. exact Hr.
Qed.

Lemma utf8_valid_app : forall a b, run_utf8_validation a = true -> run_utf8_validation b = true -> run_utf8_validation (a ++ b) = true.
Proof.
  intros a. remember (length a) as n eqn:Hn. revert a Hn.
  induction n as [n IH] using (well_founded_induction lt_wf).
  intros a Hn b Ha Hb. destruct (utf8_valid_inv a Ha) as [->|(c & r & -> & Hc & Hr)].
  - exact Hb.
  - rewrite <- app_assoc. apply utf8_valid_char_app; [assumption|].
    destruct c; [discriminate|].
    apply (IH (length r)); [rewrite Hn, length_app; simpl; lia | reflexivity | assumption..].
Qed.

Lemma utf8_char_ok_shape : forall c, utf8_char_ok c = true ->
  exists x t, c = x :: t /\ utf8_is_cont_byte x = false /\
  Forall (fun b => utf8_is_cont_byte b = true) t /\ length t <= 3.
Proof.
  intros c Hc.
  destruct c as [|x [|a [|b [|d [|e c]]]]]; simpl in Hc; try discriminate;
    exists x; eexists; (split; [reflexivity|]);
    unfold utf8_is_cont_byte; utf8_char_facts;
    (split; [apply andb_false_iff; rewrite Z.leb_gt, Z.ltb_ge; lia|]);
    (split; [repeat constructor; apply andb_true_iff; rewrite Z.leb_le, Z.ltb_lt; lia
            | simpl; lia]).
Qed.

Lemma is_char_boundary_app_shift : forall c r j, 0 < j ->
  is_char_boundary (c ++ r) (length c + j) = is_char_boundary r j.
Proof.
  intros c r j Hj. unfold is_char_boundary.
  replace (length c + j =? 0) with false by (symmetry; apply Nat.eqb_neq; lia).
  replace (j =? 0) with false by (symmetry; apply Nat.eqb_neq; lia).
  rewrite nth_error_app2 by lia. replace (length c + j - length c) with j by lia.
  simpl. destruct (nth_error r j); [reflexivity|].
  rewrite length_app. destruct (Nat.eqb_spec (length c + j) (length c + length r));
  destruct (Nat.eqb_spec j (length r)); try reflexivity; lia.
Qed.

Lemma is_char_boundary_inside_char : forall c r i,
  utf8_char_ok c = true -> 0 < i < length c -> is_char_boundary (c ++ r) i = false.
Proof.
  intros c r i Hc Hi. destruct (utf8_char_ok_shape c Hc) as (x & t & -> & _ & Ht & _).
  unfold is_char_boundary. destruct i as [|i]; [lia|]. simpl.
  simpl in Hi. rewrite nth_error_app1 by lia.
  destruct (nth_error t i) eqn:E.
  - eapply Forall_forall in Ht; [|eapply nth_error_In; eassumption]. rewrite Ht. reflexivity.
  - apply nth_error_None in E. lia.
Qed.

Lemma is_char_boundary_after_char : forall c r,
  utf8_char_ok c = true -> run_utf8_validation r = true ->
  is_char_boundary (c ++ r) (length c) = true.
Proof.
  intros c r Hc Hr. destruct (utf8_valid_inv r Hr) as [->|(c' & r' & -> & Hc' & _)].
  - rewrite app_nil_r. apply is_char_boundary_len.
  - destruct (utf8_char_ok_shape c' Hc') as (x & t & -> & Hx & _).
    unfold is_char_boundary. rewrite nth_error_app2 by lia.
    rewrite Nat.sub_diag. simpl. rewrite Hx. apply orb_true_r.
Qed.

(** Slicing a valid string at char boundaries gives valid strings. *)
Lemma utf8_valid_boundary_split : forall s i,
  run_utf8_validation s = true -> is_char_boundary s i = true ->
  run_utf8_validation (firstn i s) = true /\ run_utf8_validation (skipn i s) = true.
Proof.
  intros s. remember (length s) as n eqn:Hn. revert s Hn.
  induction n as [n IH] using (well_founded_induction lt_wf).
  intros s Hn i Hs Hb.
  destruct i as [|i]; [split; [reflexivity | exact Hs]|].
  destruct (utf8_valid_inv s Hs) as [->|(c & r & -> & Hc & Hr)].
  - split; destruct (S i); reflexivity.
  - destruct (Nat.lt_ge_cases (S i) (length c)) as [Hlt|Hge].
    + rewrite is_char_boundary_inside_char in Hb by (auto; lia). discriminate.
    + rewrite firstn_app, skipn_app, firstn_all2, skipn_all2 by lia.
      assert (Hl : 0 < length c) by (destruct c; [discriminate | simpl; lia]).
      destruct (Nat.eq_dec (S i) (length c)) as [Heq|Hne].
      * replace (S i - length c) with 0 by lia. simpl. rewrite app_nil_r.
        split; [|exact Hr].
        rewrite <- (app_nil_r c). apply utf8_valid_char_app; auto.
      * replace (S i) with (length c + (S i - length c)) in Hb by lia.
        rewrite is_char_boundary_app_shift in Hb by lia.
        destruct (IH (length r)) with (s := r) (i := S i - length c) as [H1 H2];
          [rewrite Hn, length_app; lia | reflexivity | assumption | assumption |].
        split; [apply utf8_valid_char_app|]; assumption.
Qed.

Lemma utf8_valid_snoc_inv : forall s, run_utf8_validation s = true -> s <> [] ->
  exists p c, s = p ++ c /\ run_utf8_validation p = true /\ utf8_char_ok c = true.
Proof.
  intros s. remember (length s) as n eqn:Hn. revert s Hn.
  induction n as [n IH] using (well_founded_induction lt_wf).
  intros s Hn Hs Hne.
  destruct (utf8_valid_inv s Hs) as [->|(c & r & -> & Hc & Hr)]; [congruence|].
  destruct r as [|b r'].
  - exists [], c. rewrite app_nil_r. auto.
  - destruct (IH (length (b :: r'))) with (s := b :: r') as (p & d & Hpd & Hp & Hd);
      [rewrite Hn, length_app; destruct c; [discriminate | simpl; lia]
      | reflexivity | assumption | discriminate |].
    exists (c ++ p), d. rewrite Hpd, app_assoc. split; [reflexivity|].
    split; [apply utf8_valid_char_app|]; assumption.
Qed.

(** Within three bytes of any offset there is a char boundary. *)
Lemma utf8_boundary_near : forall s i,
  run_utf8_validation s = true -> i <= length s ->
  exists k, k <= 3 /\ i + k <= length s /\ is_char_boundary s (i + k) = true.
Proof.
  intros s. remember (length s) as n eqn:Hn. revert s Hn.
  induction n as [n IH] using (well_founded_induction lt_wf).
  intros s Hn i Hs Hi.
  destruct i as [|i]; [exists 0; split; [lia|]; split; [lia|]; reflexivity|].
  destruct (utf8_valid_inv s Hs) as [->|(c & r & -> & Hc & Hr)]; [simpl in *; lia|].
  destruct (utf8_char_ok_shape c Hc) as (x & t & Hxt & _ & _ & Ht).
  destruct (Nat.le_gt_cases (S i) (length c)).
  - exists (length c - S i). rewrite Hn, length_app.
    split; [subst c; simpl in *; lia|]. split; [lia|].
    replace (S i + (length c - S i)) with (length c) by lia.
    apply is_char_boundary_after_char; assumption.
  - destruct (IH (length r)) with (s := r) (i := S i - length c) as (k & Hk & Hk1 & Hk2);
      [rewrite Hn, length_app, Hxt; simpl; lia | reflexivity | assumption
      | rewrite Hn, length_app in Hi; lia |].
    exists k. split; [assumption|]. rewrite Hn, length_app. split; [rewrite Hn, length_app in Hi; lia|].
    replace (S i + k) with (length c + (S i - length c + k)) by lia.
    rewrite is_char_boundary_app_shift by lia. assumption.
Qed.

(* ------------------------------------------------------------------ *)
(** ** The decoders on valid input *)

Ltac zcond :=
  repeat match goal with
  | |- context [(?a <? ?b)%Z] =>
      first [ replace (a <? b)%Z with true by (symmetry; apply Z.ltb_lt; lia)
            | replace (a <? b)%Z with false by (symmetry; apply Z.ltb_ge; lia) ]
  | |- context [utf8_is_cont_byte ?b] =>
      first [ replace (utf8_is_cont_byte b) with true
                by (symmetry; unfold utf8_is_cont_byte; apply andb_true_iff;
                    rewrite Z.leb_le, Z.ltb_lt; lia)
            | replace (utf8_is_cont_byte b) with false
                by (symmetry; unfold utf8_is_cont_byte; apply andb_false_iff;
                    rewrite Z.leb_gt, Z.ltb_ge; lia) ]
  end.

Lemma next_code_point_char : forall c, utf8_char_ok c = true ->
  exists cp, forall r, next_code_point (c ++ r) = Some (cp, r).
Proof.
  intros c Hc.
  destruct c as [|x [|a [|b [|d [|e c]]]]]; simpl in Hc; try discriminate;
    utf8_char_facts; eexists; intros r; simpl; zcond; reflexivity.
Qed.

Lemma next_code_point_reverse_char : forall c, utf8_char_ok c = true ->
  exists cp, forall r, next_code_point_reverse (rev c ++ r) = Some (cp, r).
Proof.
  intros c Hc.
  destruct c as [|x [|a [|b [|d [|e c]]]]]; simpl in Hc; try discriminate;
    utf8_char_facts; eexists; intros r; simpl; zcond; reflexivity.
Qed.

Lemma next_code_point_shape : forall s c r, next_code_point s = Some (c, r) ->
  exists pre, s = pre ++ r /\ 1 <= length pre /\
  forall X, next_code_point (pre ++ X) = Some (c, X).
Proof.
  intros s c r H. destruct s as [|x r0]; [discriminate|].
  unfold next_code_point in H. destruct (x <? 128)%Z eqn:E1.
  - injection H as <- <-. exists [x].
    repeat split; simpl; try lia; intros X; rewrite E1; reflexivity.
  - destruct r0 as [|y r1]; [discriminate|]. destruct (x <? 224)%Z eqn:E2.
    + injection H as <- <-. exists [x; y].
      repeat split; simpl; try lia; intros X; rewrite E1, E2; reflexivity.
    + destruct r1 as [|z r2]; [discriminate|]. destruct (x <? 240)%Z eqn:E3.
      * injection H as <- <-. exists [x; y; z].
        repeat split; simpl; try lia; intros X; rewrite E1, E2, E3; reflexivity.
      * destruct r2 as [|w r3]; [discriminate|]. injection H as <- <-.
        exists [x; y; z; w].
        repeat split; simpl; try lia; intros X; rewrite E1, E2, E3; reflexivity.
Qed.

Lemma next_code_point_reverse_shape : forall r0 c r,
  next_code_point_reverse r0 = Some (c, r) ->
  exists pre, r0 = pre ++ r /\ 1 <= length pre.
Proof.
  intros r0 c r H. destruct r0 as [|w r1]; [discriminate|].
  unfold next_code_point_reverse in H. destruct (w <? 128)%Z.
  - injection H as <- <-. exists [w]. auto.
  - destruct r1 as [|z r2]; [discriminate|]. destruct (utf8_is_cont_byte z).
    + destruct r2 as [|y r3]; [discriminate|]. destruct (utf8_is_cont_byte y).
      * destruct r3 as [|x r4]; [discriminate|]. injection H as <- <-.
        exists [w; z; y; x]. simpl; auto with arith.
      * injection H as <- <-. exists [w; z; y]. simpl; auto with arith.
    + injection H as <- <-. exists [w; z]. simpl; auto with arith.
Qed.

Lemma utf8_valid_next_code_point : forall s c r,
  run_utf8_validation s = true -> next_code_point s = Some (c, r) ->
  run_utf8_validation r = true /\
  exists pre, s = pre ++ r /\ utf8_char_ok pre = true.
Proof.
  intros s c r Hs H.
  destruct (utf8_valid_inv s Hs) as [->|(c0 & r0 & -> & Hc & Hr)]; [discriminate|].
  destruct (next_code_point_char c0 Hc) as [cp Hcp]. rewrite Hcp in H.
  injection H as <- <-. split; [assumption|]. exists c0. auto.
Qed.

Lemma utf8_valid_next_code_point_reverse : forall s c r',
  run_utf8_validation s = true -> next_code_point_reverse (rev s) = Some (c, r') ->
  run_utf8_validation (rev r') = true /\
  exists ch, s = rev r' ++ ch /\ utf8_char_ok ch = true.
Proof.
  intros s c r' Hs H. destruct s as [|b s'] eqn:Es; [discriminate|]. rewrite <- Es in *.
  destruct (utf8_valid_snoc_inv s Hs) as (p & ch & Hpc & Hp & Hch); [subst; discriminate|].
  rewrite Hpc, rev_app_distr in H.
  destruct (next_code_point_reverse_char ch Hch) as [cp Hcp]. rewrite Hcp in H.
  injection H as <- <-. rewrite rev_involutive. split; [assumption|]. exists ch. auto.
Qed.

(* ------------------------------------------------------------------ *)
(** ** [trim] *)

Definition is_ascii (b : Z) : Prop := (0 <= b < 128)%Z.

Lemma next_code_point_ascii : forall b r, is_ascii b ->
  next_code_point (b :: r) = Some (b, r).
Proof. intros b r Hb. unfold is_ascii in Hb. simpl. zcond. reflexivity. Qed.

Lemma next_code_point_reverse_ascii : forall b r, is_ascii b ->
  next_code_point_reverse (b :: r) = Some (b, r).
Proof. intros b r Hb. unfold is_ascii in Hb. simpl. zcond. reflexivity. Qed.

Lemma next_reject_spec : forall fuel s off a b,
  next_reject fuel s off = Some (a, b) ->
  exists p C rest cp,
    s = p ++ C ++ rest /\ a = off + length p /\ b = a + length C /\ 1 <= length C /\
    (forall X, next_code_point (C ++ X) = Some (cp, X)) /\ is_whitespace cp = false /\
    (run_utf8_validation s = true -> run_utf8_validation (C ++ rest) = true) /\
    (Forall is_ascii s -> Forall (fun b => is_whitespace b = true) p).
Proof.
  induction fuel as [|fuel IH]; intros s off a b H; [discriminate|].
  simpl in H. destruct (next_code_point s) as [[c r]|] eqn:Hn; [|discriminate].
  destruct (next_code_point_shape s c r Hn) as (pre & Hs & Hpre & Hall).
  assert (Hw : length s - length r = length pre) by (rewrite Hs, length_app; lia).
  rewrite Hw in H. destruct (is_whitespace c) eqn:Hc.
  - destruct (IH r (off + length pre) a b H)
      as (p & C & rest & cp & Hr & Ha & Hb & HC & HallC & Hcp & Hv & Hasc).
    exists (pre ++ p), C, rest, cp. rewrite Hs, Hr, <- app_assoc.
    repeat split; try assumption; [rewrite length_app; lia | | ].
    + intros Hv'. apply Hv.
      refine (proj1 (utf8_valid_next_code_point s c r _ Hn)).
      rewrite Hs, Hr. exact Hv'.
    + intros Ha'. apply Forall_app in Ha' as [Hpre' Hrest].
      apply Forall_app. split; [|apply Hasc; rewrite Hr; assumption].
      destruct pre as [|x [|y pre]]; simpl in Hpre; [lia| |].
      * inversion Hpre' as [|? ? Hx _]; subst.
        cbn [app] in Hn. rewrite next_code_point_ascii in Hn by assumption.
        injection Hn as <-. constructor; [assumption | constructor].
      * inversion Hpre' as [|? ? Hx Hy]; subst.
        exfalso. cbn [app] in Hn.
        rewrite next_code_point_ascii in Hn by assumption. injection Hn as _ Hn.
        apply (f_equal (@length Z)) in Hn. simpl in Hn. rewrite !length_app in Hn. lia.
  - injection H as <- <-. exists [], pre, r, c. simpl.
    repeat split; try assumption; try lia.
    + rewrite <- Hs. auto.
    + intros. constructor.
Qed.

Lemma next_reject_none_ascii : forall fuel s off,
  length s <= fuel -> next_reject fuel s off = None -> Forall is_ascii s ->
  Forall (fun b => is_whitespace b = true) s.
Proof.
  induction fuel as [|fuel IH]; intros s off Hl H Ha.
  - destruct s; [constructor | simpl in Hl; lia].
  - destruct s as [|x r]; [constructor|]. inversion Ha as [|? ? Hx Hr]; subst.
    cbn [next_reject] in H. rewrite next_code_point_ascii in H by assumption.
    destruct (is_whitespace x) eqn:Hw; [|discriminate].
    constructor; [assumption|]. apply (IH r (off + (length (x :: r) - length r))); auto.
    simpl in Hl; lia.
Qed.

Lemma next_reject_back_stop : forall fuel r,
  (next_code_point_reverse r = None \/
   exists c t, next_code_point_reverse r = Some (c, t) /\ is_whitespace c = false) ->
  next_reject_back fuel r = r.
Proof.
  intros [|fuel] r H; [reflexivity|]. simpl.
  destruct H as [->|(c & t & -> & Hc)]; [reflexivity|]. rewrite Hc. reflexivity.
Qed.

Lemma next_reject_back_spec : forall fuel r, length r <= fuel ->
  let r' := next_reject_back fuel r in
  (exists D, r = D ++ r' /\ (Forall is_ascii r -> Forall (fun b => is_whitespace b = true) D)) /\
  (next_code_point_reverse r' = None \/
   exists c t, next_code_point_reverse r' = Some (c, t) /\ is_whitespace c = false) /\
  (run_utf8_validation (rev r) = true -> run_utf8_validation (rev r') = true).
Proof.
  induction fuel as [|fuel IH]; intros r Hl; cbn [next_reject_back].
  - destruct r; [|simpl in Hl; lia].
    split; [exists []; split; [reflexivity | constructor]|]. auto.
  - destruct (next_code_point_reverse r) as [[c t]|] eqn:Hn.
    + destruct (next_code_point_reverse_shape r c t Hn) as (pre & Hr & Hpre).
      destruct (is_whitespace c) eqn:Hc.
      * destruct (IH t) as ((D & HD & HDa) & Hstop & Hv);
          [rewrite Hr, length_app in Hl; lia|].
        split; [|split; [exact Hstop|]].
        -- exists (pre ++ D). split; [rewrite Hr, <- app_assoc; f_equal; exact HD|].
           intros Ha. destruct r as [|w r1]; [discriminate|].
           inversion Ha as [|? ? Hw Hr1].
           rewrite next_code_point_reverse_ascii in Hn by assumption.
           injection Hn as Hwc Hrt. subst c t.
           assert (pre = [w]) as -> by (apply (app_inv_tail r1); symmetry; exact Hr).
           apply Forall_app.
           split; [constructor; [assumption | constructor] | apply HDa; assumption].
        -- intros Hv'. apply Hv.
           destruct (utf8_valid_next_code_point_reverse (rev r) c t Hv') as [Hv'' _];
             [rewrite rev_involutive; assumption | assumption].
      * split; [exists []; split; [reflexivity | constructor]|].
        split; [right; exists c, t; auto | auto].
    + split; [exists []; split; [reflexivity | constructor]|]. auto.
Qed.

Lemma skipn_length_app : forall (p X : list Z), skipn (length p) (p ++ X) = X.
Proof. induction p; simpl; auto. Qed.

Lemma firstn_length_app : forall (p X : list Z), firstn (length p) (p ++ X) = p.
Proof. induction p; simpl; intros; f_equal; auto. Qed.

Lemma nth_error_app_cases : forall (l1 l2 : list Z) k b,
  nth_error (l1 ++ l2) k = Some b ->
  (k < length l1 /\ In b l1) \/
  (length l1 <= k /\ nth_error l2 (k - length l1) = Some b).
Proof.
  intros l1 l2 k b H. destruct (Nat.lt_ge_cases k (length l1)).
  - left. rewrite nth_error_app1 in H by assumption. split; [assumption|].
    eapply nth_error_In; eassumption.
  - right. rewrite nth_error_app2 in H by assumption. auto.
Qed.

(** What [trim] returns: nothing, or a slice [a..j] of its input that
    [trim] leaves alone, valid when the input is, and which keeps every
    non-whitespace byte of an ASCII input. *)
Lemma trim_cases : forall s,
  (trim s = [] /\ (Forall is_ascii s -> Forall (fun b => is_whitespace b = true) s)) \/
  (exists a j, a < j <= length s /\ trim s = firstn (j - a) (skipn a s) /\
     trim (trim s) = trim s /\
     (run_utf8_validation s = true -> run_utf8_validation (trim s) = true) /\
     (Forall is_ascii s -> forall k b, nth_error s k = Some b ->
        is_whitespace b = false -> a <= k < j)).
Proof.
  intros s. destruct (next_reject (length s) s 0) as [[a b]|] eqn:Hr.
  - right.
    destruct (next_reject_spec _ _ _ _ _ Hr)
      as (p & C & rest & cp & Hs & Ha & Hb & HC & HallC & Hcp & Hv & Hasc).
    simpl in Ha.
    assert (Hskip : skipn b s = rest).
    { rewrite Hs, Hb, Ha, app_assoc, <- length_app. apply skipn_length_app. }
    assert (Hskipa : skipn a s = C ++ rest).
    { rewrite Hs, Ha. apply skipn_length_app. }
    destruct (next_reject_back_spec (length rest) (rev rest)) as ((D & HD & HDa) & Hstop & Hvb);
      [rewrite length_rev; lia|].
    set (r' := next_reject_back (length rest) (rev rest)) in *.
    assert (Hrest : rest = rev r' ++ rev D).
    { rewrite <- rev_app_distr, <- HD, rev_involutive. reflexivity. }
    assert (Htrim : trim s = C ++ rev r').
    { unfold trim, trim_span. rewrite Hr. cbv beta iota zeta. rewrite Hskip. fold r'.
      rewrite Hskipa. replace (b + length r' - a) with (length C + length (rev r'))
        by (rewrite length_rev; lia).
      rewrite Hrest, app_assoc, <- length_app. apply firstn_length_app. }
    assert (Hlen : length s = length p + length C + length r' + length D).
    { rewrite Hs, Hrest, !length_app, !length_rev. lia. }
    exists a, (b + length r'). split; [lia|]. split.
    { rewrite Htrim, Hskipa. replace (b + length r' - a) with (length C + length (rev r'))
        by (rewrite length_rev; lia).
      rewrite Hrest, app_assoc, <- length_app. symmetry. apply firstn_length_app. }
    split; [|split].
    + rewrite Htrim.
      assert (E1 : next_reject (length (C ++ rev r')) (C ++ rev r') 0 = Some (0, length C)).
      { destruct (length (C ++ rev r')) eqn:EL; [rewrite length_app in EL; lia|].
        cbn [next_reject]. rewrite HallC, Hcp. rewrite length_app. do 3 f_equal. lia. }
      unfold trim, trim_span. rewrite E1. cbv beta iota zeta.
      rewrite skipn_length_app, rev_involutive, next_reject_back_stop by exact Hstop.
      rewrite Nat.sub_0_r. simpl skipn.
      rewrite firstn_all2; [reflexivity | rewrite length_app, length_rev; lia].
    + intros Hvs. rewrite Htrim. specialize (Hv Hvs).
      destruct (utf8_valid_next_code_point (C ++ rest) cp rest Hv (HallC rest))
        as [Hvr (pre & Hpre & Hok)].
      apply app_inv_tail in Hpre. subst pre.
      apply utf8_valid_char_app; [assumption|]. apply Hvb. rewrite rev_involutive. exact Hvr.
    + intros Has k x Hk Hx.
      assert (HasR : Forall is_ascii (rev rest)).
      { apply Forall_rev. rewrite Hs in Has. apply Forall_app in Has as [_ Has].
        apply Forall_app in Has as [_ Has]. exact Has. }
      specialize (Hasc Has). specialize (HDa HasR).
      rewrite Hs, Hrest in Hk.
      destruct (nth_error_app_cases _ _ _ _ Hk) as [[Hk1 Hin]|[Hk1 Hk2]].
      { eapply Forall_forall in Hasc; [|exact Hin]. congruence. }
      split; [lia|].
      rewrite app_assoc in Hk2.
      destruct (nth_error_app_cases _ _ _ _ Hk2) as [[Hk3 _]|[Hk3 Hk4]].
      { rewrite length_app, length_rev in Hk3. lia. }
      apply nth_error_In in Hk4. apply in_rev in Hk4.
      eapply Forall_forall in HDa; [|exact Hk4]. congruence.
  - left. split.
    + unfold trim, trim_span. rewrite Hr. reflexivity.
    + apply (next_reject_none_ascii (length s) s 0); [lia | assumption].
Qed.

Lemma trim_length : forall s, length (trim s) <= length s.
Proof.
  intros s. destruct (trim_cases s) as [[-> _]|(a & j & Hj & -> & _)]; simpl; [lia|].
  rewrite length_firstn, length_skipn. lia.
Qed.

(* ------------------------------------------------------------------ *)
(** ** One iteration of the loops *)

Lemma extract_chunks_page_loop_S : forall fuel opts pn s bs chunks ci,
  extract_chunks_page_loop (S fuel) opts pn s bs chunks ci =
  if bs <? length s then
    if length s <=? find_char_boundary s bs then Done (chunks, ci) else
    match chunk_end_of opts s (find_char_boundary s bs) with
    | None => Panic
    | Some ce =>
      match str_slice s (find_char_boundary s bs) ce with
      | None => Panic
      | Some slice =>
        let '(chunks', ci') :=
          if negb (is_empty (trim slice)) then
            (chunks ++ [mkChunk ci (pn + 1) (trim slice)
                          1.0%float 0.0%float 0.0%float 0.0%float 0.0%float], ci + 1)
          else (chunks, ci) in
        if (ce - overlap opts <=? bs) || (length s <=? ce) then Done (chunks', ci')
        else extract_chunks_page_loop fuel opts pn s (ce - overlap opts) chunks' ci'
      end
    end
  else Done (chunks, ci).
Proof. reflexivity. Qed.

Lemma page_chunks_loop_S : forall fuel opts pnum s bs chunks ci,
  page_chunks_loop (S fuel) opts pnum s bs chunks ci =
  if bs <? length s then
    if length s <=? find_char_boundary s bs then Done (chunks, ci) else
    match chunk_end_of opts s (find_char_boundary s bs) with
    | None => Panic
    | Some ce =>
      match str_slice s (find_char_boundary s bs) ce with
      | None => Panic
      | Some slice =>
        let '(chunks', ci') :=
          if negb (is_empty (trim slice)) then
            (chunks ++ [mkChunk ci pnum (trim slice)
                          1.0%float 0.0%float 0.0%float 0.0%float 0.0%float], ci + 1)
          else (chunks, ci) in
        if (ce - overlap opts <=? bs) || (length s <=? ce) then Done (chunks', ci')
        else page_chunks_loop fuel opts pnum s (ce - overlap opts) chunks' ci'
      end
    end
  else Done (chunks, ci).
Proof. reflexivity. Qed.

Lemma rfind_loop_lt : forall fuel r i, rfind_loop fuel r = Some i -> i < length r.
Proof.
  induction fuel as [|fuel IH]; intros r i H; [discriminate|].
  cbn [rfind_loop] in H. destruct (next_code_point_reverse r) as [[c r']|] eqn:E; [|discriminate].
  destruct (next_code_point_reverse_shape r c r' E) as (pre & -> & Hpre).
  rewrite length_app.
  destruct (is_sentence_end c); [injection H as <-; lia|].
  apply IH in H. lia.
Qed.

Lemma rfind_sentence_end_lt : forall w i, rfind_sentence_end w = Some i -> i < length w.
Proof.
  intros w i H. apply rfind_loop_lt in H. rewrite length_rev in H. exact H.
Qed.

Lemma chunk_end_of_spec : forall opts s start,
  start < length s -> is_char_boundary s start = true ->
  exists ce, chunk_end_of opts s start = Some ce /\ start <= ce /\
    ce <= find_char_boundary s (Nat.min (start + max_chunk_size opts) (length s)) /\
    is_char_boundary s ce = true.
Proof.
  intros opts s start Hs Hb. unfold chunk_end_of. cbv zeta.
  set (e := find_char_boundary s (Nat.min (start + max_chunk_size opts) (length s))).
  destruct (find_char_boundary_spec s (Nat.min (start + max_chunk_size opts) (length s)))
    as (He1 & He2 & _); [lia|]. fold e in He1, He2.
  destruct (preserve_sentence_boundaries opts && (e <? length s)) eqn:Hp.
  - set (ss := find_char_boundary s (start + Nat.min (max_chunk_size opts * 4 / 5) (e - start))).
    destruct (find_char_boundary_spec s (start + Nat.min (max_chunk_size opts * 4 / 5) (e - start)))
      as (Hs1 & Hs2 & _); [lia|]. fold ss in Hs1, Hs2.
    destruct (ss <? e) eqn:Hlt; bool_facts.
    + rewrite str_slice_ok by (auto; lia).
      destruct (rfind_sentence_end (firstn (e - ss) (skipn ss s))) as [i|] eqn:Hi.
      * apply rfind_sentence_end_lt in Hi.
        rewrite length_firstn, length_skipn in Hi.
        destruct (find_char_boundary_spec s (ss + i + 1)) as (Hc1 & Hc2 & _); [lia|].
        eexists; split; [reflexivity|]. split; [lia|]. split; [|assumption].
        apply find_char_boundary_least; auto; lia.
      * eexists; split; [reflexivity|]. split; [lia|]. auto.
    + eexists; split; [reflexivity|]. split; [lia|]. auto.
  - eexists; split; [reflexivity|]. split; [lia|]. auto.
Qed.

(* ------------------------------------------------------------------ *)
(** ** The loops terminate, and what they produce *)

Lemma extract_chunks_page_loop_as_page : forall fuel opts pn s bs chunks ci,
  extract_chunks_page_loop fuel opts pn s bs chunks ci =
  page_chunks_loop fuel opts (pn + 1) s bs chunks ci.
Proof.
  induction fuel as [|fuel IH]; intros; [reflexivity|].
  rewrite extract_chunks_page_loop_S, page_chunks_loop_S.
  destruct (bs <? length s); [|reflexivity].
  destruct (length s <=? find_char_boundary s bs); [reflexivity|].
  destruct (chunk_end_of opts s (find_char_boundary s bs)) as [ce|]; [|reflexivity].
  destruct (str_slice s (find_char_boundary s bs) ce) as [slice|]; [|reflexivity].
  destruct (negb (is_empty (trim slice)));
    (destruct ((ce - overlap opts <=? bs) || (length s <=? ce)); [reflexivity|apply IH]).
Qed.

Lemma page_chunks_loop_spec : forall fuel opts pnum s bs chunks ci,
  length s - bs < fuel ->
  exists L,
    (forall f, fuel <= f ->
       page_chunks_loop f opts pnum s bs chunks ci = Done (chunks ++ L, ci + length L)) /\
    map index L = seq ci (length L) /\
    Forall (fun c => page_number c = pnum /\ chunk_window_ok opts s c) L.
Proof.
  induction fuel as [|fuel IH]; intros opts pnum s bs chunks ci Hf; [lia|].
  destruct (bs <? length s) eqn:Hbs.
  2:{ exists []. split; [|split; [reflexivity|constructor]].
      intros f Hf'. destruct f as [|f]; [lia|].
      rewrite page_chunks_loop_S, Hbs, app_nil_r, Nat.add_0_r. reflexivity. }
  assert (Hbs' : bs < length s) by (apply Nat.ltb_lt; exact Hbs).
  destruct (find_char_boundary_spec s bs) as (Hst & Hstb & _); [lia|].
  remember (find_char_boundary s bs) as start eqn:Hstart.
  destruct (length s <=? start) eqn:Hend.
  { exists []. split; [|split; [reflexivity|constructor]].
    intros f Hf'. destruct f as [|f]; [lia|].
    rewrite page_chunks_loop_S, Hbs, <- Hstart, Hend, app_nil_r, Nat.add_0_r.
    reflexivity. }
  assert (Hst' : start < length s) by (apply Nat.leb_gt; exact Hend).
  destruct (chunk_end_of_spec opts s start Hst' Hstb) as (ce & Hce & Hce1 & Hce2 & Hceb).
  assert (Hcel : ce <= length s)
    by (pose proof (find_char_boundary_le_len s
          (Nat.min (start + max_chunk_size opts) (length s))); lia).
  assert (Hsl := str_slice_ok s start ce Hce1 Hcel Hstb Hceb).
  destruct (is_empty (trim (firstn (ce - start) (skipn start s)))) eqn:He;
    destruct ((ce - overlap opts <=? bs) || (length s <=? ce)) eqn:Hbr.
  - exists []. split; [|split; [reflexivity|constructor]].
    intros f Hf'. destruct f as [|f]; [lia|].
    rewrite page_chunks_loop_S, Hbs, <- Hstart, Hend, Hce, Hsl, He, Hbr.
    cbn [negb]. rewrite app_nil_r, Nat.add_0_r. reflexivity.
  - destruct (IH opts pnum s (ce - overlap opts) chunks ci) as (L & HL1 & HL2 & HL3).
    { apply orb_false_iff in Hbr as [H1 H2].
      apply Nat.leb_gt in H1. apply Nat.leb_gt in H2. lia. }
    exists L. split; [|split; assumption].
    intros f Hf'. destruct f as [|f]; [lia|].
    rewrite page_chunks_loop_S, Hbs, <- Hstart, Hend, Hce, Hsl, He, Hbr.
    cbn [negb]. apply HL1. lia.
  - eexists [_]. split; [|split].
    + intros f Hf'. destruct f as [|f]; [lia|].
      rewrite page_chunks_loop_S, Hbs, <- Hstart, Hend, Hce, Hsl, He, Hbr.
      cbn [negb]. reflexivity.
    + reflexivity.
    + constructor; [|constructor]. split; [reflexivity|].
      exists start, ce. cbn [text]. repeat (split; [assumption|]). split; [reflexivity|].
      destruct (trim (firstn (ce - start) (skipn start s))); [discriminate|congruence].
  - destruct (IH opts pnum s (ce - overlap opts)
                (chunks ++ [mkChunk ci pnum (trim (firstn (ce - start) (skipn start s)))
                              1.0%float 0.0%float 0.0%float 0.0%float 0.0%float])
                (ci + 1)) as (L & HL1 & HL2 & HL3).
    { apply orb_false_iff in Hbr as [H1 H2].
      apply Nat.leb_gt in H1. apply Nat.leb_gt in H2. lia. }
    eexists (_ :: L). split; [|split].
    + intros f Hf'. destruct f as [|f]; [lia|].
      rewrite page_chunks_loop_S, Hbs, <- Hstart, Hend, Hce, Hsl, He, Hbr.
      cbn [negb]. rewrite HL1 by lia. rewrite <- app_assoc. cbn [length app].
      f_equal. f_equal. lia.
    + cbn [map length seq index]. rewrite HL2. f_equal. f_equal. lia.
    + constructor; [|exact HL3]. split; [reflexivity|].
      exists start, ce. cbn [text]. repeat (split; [assumption|]). split; [reflexivity|].
      destruct (trim (firstn (ce - start) (skipn start s))); [discriminate|congruence].
Qed.

Lemma page_chunks_spec : forall opts pnum s,
  exists cs, page_chunks opts pnum s = Done cs /\
    map index cs = seq 0 (length cs) /\
    Forall (fun c => page_number c = pnum /\ chunk_window_ok opts s c) cs.
Proof.
  intros opts pnum s.
  destruct (page_chunks_loop_spec (S (length s)) opts pnum s 0 [] 0) as (L & H1 & H2 & H3);
    [lia|].
  exists L. unfold page_chunks. rewrite H1 by lia. split; [reflexivity|]. split; assumption.
Qed.

Lemma extract_chunks_pages_spec : forall pages opts pn chunks ci,
  exists L, extract_chunks_pages opts pages pn chunks ci = Done (chunks ++ L) /\
    map index L = seq ci (length L) /\
    Forall (fun c => pn < page_number c /\
      exists p, nth_error pages (page_number c - pn - 1) = Some p /\ chunk_window_ok opts p c) L.
Proof.
  induction pages as [|p rest IH]; intros opts pn chunks ci.
  - exists []. rewrite app_nil_r. split; [reflexivity|]. split; [reflexivity|constructor].
  - destruct (page_chunks_loop_spec (S (length p)) opts (pn + 1) p 0 chunks ci)
      as (L1 & H1 & H2 & H3); [lia|].
    destruct (IH opts (S pn) (chunks ++ L1) (ci + length L1)) as (L2 & G1 & G2 & G3).
    exists (L1 ++ L2). cbn [extract_chunks_pages].
    rewrite extract_chunks_page_loop_as_page, H1, G1, app_assoc by lia.
    split; [reflexivity|]. split.
    + rewrite map_app, H2, G2, length_app, seq_app. reflexivity.
    + apply Forall_app. split.
      * eapply Forall_impl; [|exact H3]. intros c [Hc Hw]. split; [lia|].
        exists p. rewrite Hc. replace (pn + 1 - pn - 1) with 0 by lia. split; [reflexivity | exact Hw].
      * eapply Forall_impl; [|exact G3]. intros c [Hc (q & Hq & Hw)]. split; [lia|].
        exists q. replace (page_number c - pn - 1) with (S (page_number c - S pn - 1)) by lia.
        split; assumption.
Qed.

Lemma is_char_boundary_skipn : forall s a b, a <= b -> a <= length s ->
  is_char_boundary s b = true -> is_char_boundary (skipn a s) (b - a) = true.
Proof.
  intros s a b Hab Has Hb. unfold is_char_boundary in *.
  destruct (Nat.eq_dec a b) as [<-|Hne]; [rewrite Nat.sub_diag; reflexivity|].
  replace (b - a =? 0) with false by (symmetry; apply Nat.eqb_neq; lia).
  replace (b =? 0) with false in Hb by (symmetry; apply Nat.eqb_neq; lia).
  simpl in *. rewrite nth_error_skipn. replace (a + (b - a)) with b by lia.
  destruct (nth_error s b); [exact Hb|].
  rewrite length_skipn. apply Nat.eqb_eq in Hb. apply Nat.eqb_eq. lia.
Qed.

Lemma utf8_valid_substring : forall s a b,
  run_utf8_validation s = true -> a <= b -> b <= length s ->
  is_char_boundary s a = true -> is_char_boundary s b = true ->
  run_utf8_validation (substring s a b) = true.
Proof.
  intros s a b Hs Hab Hb Ha Hbb. unfold substring.
  destruct (utf8_valid_boundary_split s a Hs Ha) as [_ H1].
  apply (utf8_valid_boundary_split (skipn a s) (b - a) H1).
  apply is_char_boundary_skipn; auto; lia.
Qed.

Lemma substring_substring : forall s a b i j,
  a <= b <= length s -> i <= j <= b - a ->
  firstn (j - i) (skipn i (substring s a b)) = substring s (a + i) (a + j).
Proof.
  intros s a b i j Hab Hij. unfold substring.
  rewrite skipn_firstn_comm, firstn_firstn, skipn_skipn.
  replace (Nat.min (j - i) (b - a - i)) with (a + j - (a + i)) by lia.
  replace (i + a) with (a + i) by lia. reflexivity.
Qed.

Lemma chunk_window_substring : forall opts p c,
  run_utf8_validation p = true -> chunk_window_ok opts p c ->
  exists a b, a < b <= length p /\ text c = substring p a b /\ text c <> [] /\
    trim (text c) = text c /\ run_utf8_validation (text c) = true.
Proof.
  intros opts p c Hp (start & ce & Hs & Hsb & Hce1 & Hce2 & Hceb & Ht & Hne).
  assert (Hcel : ce <= length p)
    by (pose proof (find_char_boundary_le_len p
          (Nat.min (start + max_chunk_size opts) (length p))); lia).
  assert (Hlen : length (substring p start ce) = ce - start)
    by (unfold substring; rewrite length_firstn, length_skipn; lia).
  destruct (trim_cases (substring p start ce)) as [[Hnil _]|(i & j & Hij & Htr & Htt & Hv & _)];
    [congruence|].
  rewrite Hlen in Hij.
  exists (start + i), (start + j). split; [lia|].
  split; [rewrite Ht, Htr, substring_substring by lia; reflexivity|].
  split; [exact Hne|]. split; [rewrite Ht; exact Htt|].
  rewrite Ht. apply Hv. apply utf8_valid_substring; auto.
Qed.

Lemma chunk_window_length : forall opts p c,
  run_utf8_validation p = true -> chunk_window_ok opts p c ->
  length (text c) <= max_chunk_size opts + 3.
Proof.
  intros opts p c Hp (start & ce & Hs & Hsb & Hce1 & Hce2 & Hceb & Ht & Hne).
  set (m := Nat.min (start + max_chunk_size opts) (length p)) in *.
  destruct (utf8_boundary_near p m Hp) as (k & Hk & Hk1 & Hk2); [lia|].
  assert (find_char_boundary p m <= m + k) by (apply find_char_boundary_least; auto; lia).
  rewrite Ht. pose proof (trim_length (substring p start ce)).
  unfold substring in *. rewrite length_firstn, length_skipn in *. lia.
Qed.

(** The chunks a run appends do not depend on the accumulated [chunks], and
    apart from their indices not on [chunk_index]. *)
Lemma page_chunks_loop_rel : forall fuel opts pnum s bs ch1 ci1 ch2 ci2 a1 n1,
  page_chunks_loop fuel opts pnum s bs ch1 ci1 = Done (a1, n1) ->
  exists a2 n2 L1 L2,
    page_chunks_loop fuel opts pnum s bs ch2 ci2 = Done (a2, n2) /\
    a1 = ch1 ++ L1 /\ a2 = ch2 ++ L2 /\
    map text L1 = map text L2 /\ map page_number L1 = map page_number L2.
Proof.
  induction fuel as [|fuel IH]; intros opts pnum s bs ch1 ci1 ch2 ci2 a1 n1 H;
    [discriminate|].
  rewrite page_chunks_loop_S in H |- *.
  destruct (bs <? length s);
    [|injection H as <- <-; exists ch2, ci2, [], []; rewrite !app_nil_r; auto].
  destruct (length s <=? find_char_boundary s bs);
    [injection H as <- <-; exists ch2, ci2, [], []; rewrite !app_nil_r; auto|].
  destruct (chunk_end_of opts s (find_char_boundary s bs)) as [ce|]; [|discriminate].
  destruct (str_slice s (find_char_boundary s bs) ce) as [slice|]; [|discriminate].
  destruct (is_empty (trim slice)); cbn [negb] in *;
    destruct ((ce - overlap opts <=? bs) || (length s <=? ce)).
  - injection H as <- <-. exists ch2, ci2, [], []. rewrite !app_nil_r. auto.
  - exact (IH _ _ _ _ _ _ _ _ _ _ H).
  - injection H as <- <-. eexists _, _, [_], [_]. split; [reflexivity|]. auto.
  - destruct (IH _ _ _ _ _ _
                (ch2 ++ [mkChunk ci2 pnum (trim slice)
                           1.0%float 0.0%float 0.0%float 0.0%float 0.0%float])
                (ci2 + 1) _ _ H) as (a2 & n2 & L1 & L2 & G1 & G2 & G3 & G4 & G5).
    eexists a2, n2, (_ :: L1), (_ :: L2). split; [exact G1|].
    rewrite G2, G3, <- !app_assoc. cbn [app map text page_number].
    rewrite G4, G5. auto.
Qed.

Lemma map_add_seq : forall k st n, map (Nat.add k) (seq st n) = seq (k + st) n.
Proof.
  intros k st n. revert st. induction n as [|n IH]; intros st; [reflexivity|].
  cbn [seq map]. rewrite IH. f_equal. f_equal. lia.
Qed.

(* ------------------------------------------------------------------ *)
(** ** ASCII pages *)

Lemma forallb_ascii : forall s, forallb is_ascii_byte s = true -> Forall is_ascii s.
Proof.
  intros s H. apply Forall_forall. intros x Hx.
  eapply forallb_forall in H; [|exact Hx]. unfold is_ascii_byte in H. bool_facts.
  unfold is_ascii. lia.
Qed.

Lemma sentence_end_offsets_in : forall s k i b,
  nth_error s i = Some b -> is_sentence_end b = true ->
  In (k + i) (sentence_end_offsets_from k s).
Proof.
  induction s as [|c t IH]; intros k i b Hi Hb; [destruct i; discriminate|].
  destruct i as [|i].
  - injection Hi as ->. cbn [sentence_end_offsets_from]. rewrite Hb. left. lia.
  - cbn [sentence_end_offsets_from]. replace (k + S i) with (S k + i) by lia.
    destruct (is_sentence_end c); [right|]; exact (IH (S k) i b Hi Hb).
Qed.

Lemma ascii_char_boundary : forall s k, Forall is_ascii s -> k <= length s ->
  is_char_boundary s k = true.
Proof.
  intros s k Hs Hk. unfold is_char_boundary.
  destruct (nth_error s k) as [b|] eqn:E.
  - eapply Forall_forall in Hs; [|eapply nth_error_In; exact E].
    unfold is_ascii in Hs. unfold utf8_is_cont_byte.
    replace ((128 <=? b)%Z) with false by (symmetry; apply Z.leb_gt; lia).
    apply orb_true_r.
  - apply nth_error_None in E. replace (k =? length s) with true
      by (symmetry; apply Nat.eqb_eq; lia). apply orb_true_r.
Qed.

Lemma ascii_find_char_boundary : forall s k, Forall is_ascii s -> k <= length s ->
  find_char_boundary s k = k.
Proof.
  intros s k Hs Hk. destruct (find_char_boundary_spec s k Hk) as (H1 & _).
  pose proof (find_char_boundary_least s k k (le_n _) Hk (ascii_char_boundary s k Hs Hk)).
  lia.
Qed.

Lemma rfind_loop_ascii_last : forall t fuel b r,
  Forall is_ascii t -> Forall (fun c => is_sentence_end c = false) t ->
  is_ascii b -> is_sentence_end b = true -> length t < fuel ->
  rfind_loop fuel (t ++ b :: r) = Some (length r).
Proof.
  induction t as [|c t IH]; intros fuel b r Ha Hn Hb Hbe Hf;
    (destruct fuel as [|fuel]; [simpl in Hf; lia|]); cbn [rfind_loop app].
  - rewrite next_code_point_reverse_ascii by exact Hb. rewrite Hbe. reflexivity.
  - inversion Ha; subst. inversion Hn; subst.
    rewrite next_code_point_reverse_ascii by assumption.
    match goal with H : is_sentence_end c = false |- _ => rewrite H end.
    apply IH; auto. simpl in Hf. lia.
Qed.

Lemma nth_error_substring : forall s a b k, k < b - a ->
  nth_error (substring s a b) k = nth_error s (a + k).
Proof.
  intros s a b k Hk. unfold substring. rewrite nth_error_firstn.
  destruct (Nat.ltb_spec k (b - a)); [apply nth_error_skipn | lia].
Qed.

Lemma ascii_substring : forall s a b, Forall is_ascii s -> Forall is_ascii (substring s a b).
Proof.
  intros s a b Hs. unfold substring.
  rewrite <- (firstn_skipn a s) in Hs. apply Forall_app in Hs as [_ Hs].
  rewrite <- (firstn_skipn (b - a) (skipn a s)) in Hs.
  apply Forall_app in Hs as [Hs _]. exact Hs.
Qed.

(** Trimming [s[a..b]] of an ASCII page keeps each non-whitespace byte. *)
Lemma ascii_trim_around : forall s a b k c,
  Forall is_ascii s -> a <= k < b -> b <= length s ->
  nth_error s k = Some c -> is_whitespace c = false ->
  exists a' b', a <= a' <= k /\ k < b' <= b /\ trim (substring s a b) = substring s a' b'.
Proof.
  intros s a b k c Hs Hk Hb Hc Hw.
  assert (Hlen : length (substring s a b) = b - a)
    by (unfold substring; rewrite length_firstn, length_skipn; lia).
  assert (Hck : nth_error (substring s a b) (k - a) = Some c)
    by (rewrite nth_error_substring by lia; replace (a + (k - a)) with k by lia; exact Hc).
  destruct (trim_cases (substring s a b))
    as [[_ Hall]|(i & j & Hij & Htr & _ & _ & Hin)].
  - specialize (Hall (ascii_substring s a b Hs)).
    eapply Forall_forall in Hall; [|eapply nth_error_In; exact Hck]. congruence.
  - specialize (Hin (ascii_substring s a b Hs) (k - a) c Hck Hw).
    exists (a + i), (a + j). rewrite Hlen in Hij. split; [lia|]. split; [lia|].
    rewrite Htr, substring_substring by lia. reflexivity.
Qed.

(** [rfind] of a sentence end in a window of an ASCII page finds the last one. *)
Lemma ascii_rfind_sentence_end : forall s a b k,
  Forall is_ascii s -> a <= k < b -> b <= length s ->
  (exists c, nth_error s k = Some c /\ is_sentence_end c = true) ->
  (forall k' c, nth_error s k' = Some c -> is_sentence_end c = true -> a <= k' < b -> k' <= k) ->
  rfind_sentence_end (substring s a b) = Some (k - a).
Proof.
  intros s a b k Hs Hk Hb (c & Hc & Hce) Hlast.
  assert (Hlen : length (substring s a b) = b - a)
    by (unfold substring; rewrite length_firstn, length_skipn; lia).
  assert (Hck : nth_error (substring s a b) (k - a) = Some c)
    by (rewrite nth_error_substring by lia; replace (a + (k - a)) with k by lia; exact Hc).
  destruct (nth_error_split _ _ Hck) as (l1 & l2 & Hw & Hl1).
  assert (Hwa := ascii_substring s a b Hs). rewrite Hw in Hwa.
  apply Forall_app in Hwa as [Ha1 Ha2]. inversion Ha2 as [|? ? Hca Ha2']; subst.
  unfold rfind_sentence_end. rewrite Hw, rev_app_distr. cbn [rev].
  rewrite <- app_assoc. cbn [app].
  rewrite <- Hl1, <- (length_rev l1). apply rfind_loop_ascii_last.
  - apply Forall_rev. exact Ha2'.
  - apply Forall_rev. apply Forall_forall. intros x Hx.
    destruct (is_sentence_end x) eqn:Ex; [|reflexivity]. exfalso.
    destruct (In_nth_error _ _ Hx) as (j & Hj).
    assert (Hw2 : length (substring s a b) = length l1 + S (length l2))
      by (rewrite Hw, length_app; reflexivity).
    assert (Hj' : j < length l2) by (apply nth_error_Some; congruence).
    assert (Hsj : nth_error (substring s a b) (length l1 + S j) = Some x)
      by (rewrite Hw, nth_error_app2, Nat.add_comm, Nat.add_sub by lia; exact Hj).
    rewrite nth_error_substring in Hsj by lia.
    specialize (Hlast _ _ Hsj Ex). lia.
  - exact Hca.
  - exact Hce.
  - rewrite length_rev, length_app. cbn [length]. lia.
Qed.

Lemma is_empty_substring : forall s a b, a < b <= length s -> is_empty (substring s a b) = false.
Proof.
  intros s a b H. destruct (substring s a b) eqn:E; [|reflexivity].
  apply (f_equal (@length Z)) in E. unfold substring in E.
  rewrite length_firstn, length_skipn in E. simpl in E. lia.
Qed.

(* ================================================================== *)
(** * The claims about the chunking loops *)

(** C1: for valid UTF-8 pages and any options, every chunk emitted by
    [oxidize_extract_chunks] (all pages) and by
    [oxidize_extract_chunks_from_page] (one page) has a text that is a
    contiguous non-empty substring [page[a..b]] of its page, already
    trimmed, and valid UTF-8. *)
Theorem chunk_text_is_trimmed_substring : forall opts pages pnum page,
  forallb run_utf8_validation pages = true -> run_utf8_validation page = true ->
  (exists cs, extract_chunks_all opts pages = Done cs /\
     Forall (fun c => exists p a b, nth_error pages (page_number c - 1) = Some p /\
        a < b <= length p /\ text c = substring p a b /\ text c <> [] /\
        trim (text c) = text c /\ run_utf8_validation (text c) = true) cs) /\
  (exists cs, page_chunks opts pnum page = Done cs /\
     Forall (fun c => exists a b,
        a < b <= length page /\ text c = substring page a b /\ text c <> [] /\
        trim (text c) = text c /\ run_utf8_validation (text c) = true) cs).
Proof.
  intros opts pages pnum page Hpages Hpage. split.
  - destruct (extract_chunks_pages_spec pages opts 0 [] 0) as (L & H1 & _ & H3).
    exists L. split; [exact H1|].
    eapply Forall_impl; [|exact H3]. intros c [_ (p & Hp & Hw)].
    rewrite Nat.sub_0_r in Hp.
    assert (Hv : run_utf8_validation p = true)
      by (eapply forallb_forall; [exact Hpages | eapply nth_error_In; exact Hp]).
    destruct (chunk_window_substring opts p c Hv Hw) as (a & b & Hc).
    exists p, a, b. split; assumption.
  - destruct (page_chunks_spec opts pnum page) as (cs & H1 & _ & H3).
    exists cs. split; [exact H1|].
    eapply Forall_impl; [|exact H3]. intros c [_ Hw].
    exact (chunk_window_substring opts page c Hpage Hw).
Qed.

Lemma chunk_text_is_trimmed_substring_witness :
  forallb run_utf8_validation [[32; 104; 105; 46; 32]%Z] = true /\
  run_utf8_validation [195; 169; 32]%Z = true /\
  ((exists cs, extract_chunks_all default_options [[32; 104; 105; 46; 32]%Z] = Done cs /\
     Forall (fun c => exists p a b,
        nth_error [[32; 104; 105; 46; 32]%Z] (page_number c - 1) = Some p /\
        a < b <= length p /\ text c = substring p a b /\ text c <> [] /\
        trim (text c) = text c /\ run_utf8_validation (text c) = true) cs) /\
   (exists cs, page_chunks default_options 1 [195; 169; 32]%Z = Done cs /\
     Forall (fun c => exists a b,
        a < b <= length [195; 169; 32]%Z /\ text c = substring [195; 169; 32]%Z a b /\
        text c <> [] /\ trim (text c) = text c /\ run_utf8_validation (text c) = true) cs)).
Proof.
  split; [reflexivity|]. split; [reflexivity|].
  apply (chunk_text_is_trimmed_substring default_options [[32; 104; 105; 46; 32]%Z] 1
           [195; 169; 32]%Z); reflexivity.
Defined.

(** C2: for every page and every options value with [max_chunk_size > 0]
    (also with [overlap >= max_chunk_size]), both chunking loops terminate
    from any state: running them longer than [len - byte_start] steps always
    gives the same finished result, and so do the whole-document and the
    page-scoped chunking.  (The proof does not use [max_chunk_size > 0]: a
    zero size terminates too.) *)
Theorem chunk_loop_terminates : forall opts pn page pages,
  0 < max_chunk_size opts ->
  (forall bs chunks ci, exists r, forall fuel, length page - bs < fuel ->
     extract_chunks_page_loop fuel opts pn page bs chunks ci = Done r) /\
  (forall bs chunks ci, exists r, forall fuel, length page - bs < fuel ->
     page_chunks_loop fuel opts pn page bs chunks ci = Done r) /\
  (exists cs, extract_chunks_all opts pages = Done cs) /\
  (exists cs, page_chunks opts pn page = Done cs).
Proof.
  intros opts pn page pages _. split; [|split; [|split]].
  - intros bs chunks ci.
    destruct (page_chunks_loop_spec (S (length page - bs)) opts (pn + 1) page bs chunks ci)
      as (L & H1 & _); [lia|].
    eexists. intros fuel Hf. rewrite extract_chunks_page_loop_as_page. apply H1. lia.
  - intros bs chunks ci.
    destruct (page_chunks_loop_spec (S (length page - bs)) opts pn page bs chunks ci)
      as (L & H1 & _); [lia|].
    eexists. intros fuel Hf. apply H1. lia.
  - destruct (extract_chunks_pages_spec pages opts 0 [] 0) as (L & H1 & _).
    eexists. exact H1.
  - destruct (page_chunks_spec opts pn page) as (cs & H1 & _). eexists. exact H1.
Qed.

Lemma chunk_loop_terminates_witness :
  0 < max_chunk_size (mkOptions 4 9 true true) /\
  (forall bs chunks ci, exists r, forall fuel, length [104; 105; 46; 32; 120]%Z - bs < fuel ->
     extract_chunks_page_loop fuel (mkOptions 4 9 true true) 0 [104; 105; 46; 32; 120]%Z
       bs chunks ci = Done r) /\
  (forall bs chunks ci, exists r, forall fuel, length [104; 105; 46; 32; 120]%Z - bs < fuel ->
     page_chunks_loop fuel (mkOptions 4 9 true true) 0 [104; 105; 46; 32; 120]%Z
       bs chunks ci = Done r) /\
  (exists cs, extract_chunks_all (mkOptions 4 9 true true) [[104; 105]%Z] = Done cs) /\
  (exists cs, page_chunks (mkOptions 4 9 true true) 0 [104; 105; 46; 32; 120]%Z = Done cs).
Proof.
  split; [simpl; lia|].
  apply (chunk_loop_terminates (mkOptions 4 9 true true) 0 [104; 105; 46; 32; 120]%Z
           [[104; 105]%Z]).
  simpl; lia.
Defined.

(** C3: on a page of exactly 600 ASCII bytes whose only ['.'], ['!'] or
    ['?'] is a period at byte 500, with [max_chunk_size = 512],
    [overlap = 50] and [preserve_sentence_boundaries = true], both chunking
    loops emit exactly two chunks: the first ends at byte 501, just after the
    period (not at 512), and the second starts at or before byte 500 (the
    loop restarts at [501 - 50 = 451]). *)
Theorem sentence_boundary_example : forall im page,
  length page = 600 -> forallb is_ascii_byte page = true ->
  nth_error page 500 = Some 46%Z -> sentence_end_offsets page = [500] ->
  exists a1 a2 b2, a1 <= 500 /\ 451 <= a2 <= 500 /\ 500 < b2 <= 600 /\
    extract_chunks_all (mkOptions 512 50 true im) [page] =
      Done [mkChunk 0 1 (substring page a1 501) 1.0%float 0.0%float 0.0%float 0.0%float 0.0%float;
            mkChunk 1 1 (substring page a2 b2) 1.0%float 0.0%float 0.0%float 0.0%float 0.0%float] /\
    page_chunks (mkOptions 512 50 true im) 1 page =
      Done [mkChunk 0 1 (substring page a1 501) 1.0%float 0.0%float 0.0%float 0.0%float 0.0%float;
            mkChunk 1 1 (substring page a2 b2) 1.0%float 0.0%float 0.0%float 0.0%float 0.0%float].
Proof.
  intros im page Hl Hab H500 Hoff.
  assert (Ha := forallb_ascii page Hab).
  assert (Hse : forall k b, nth_error page k = Some b -> is_sentence_end b = true -> k = 500).
  { intros k b Hk Hb. pose proof (sentence_end_offsets_in page 0 k b Hk Hb) as H.
    unfold sentence_end_offsets in Hoff. rewrite Hoff in H. destruct H as [H|[]]. lia. }
  assert (Hfcb : forall k, k <= 600 -> find_char_boundary page k = k)
    by (intros k Hk; apply ascii_find_char_boundary; auto; lia).
  assert (Hbd : forall k, k <= 600 -> is_char_boundary page k = true)
    by (intros k Hk; apply ascii_char_boundary; auto; lia).
  assert (Hce0 : chunk_end_of (mkOptions 512 50 true im) page 0 = Some 501).
  { unfold chunk_end_of. cbv zeta. cbn [max_chunk_size preserve_sentence_boundaries].
    rewrite Hl, (Hfcb (Nat.min (0 + 512) 600)) by lia.
    cbn -[find_char_boundary str_slice rfind_sentence_end].
    rewrite Hfcb by lia. cbn -[find_char_boundary str_slice rfind_sentence_end].
    rewrite str_slice_ok by (try apply Hbd; lia). fold (substring page 409 512).
    rewrite (ascii_rfind_sentence_end page 409 512 500); auto; try lia.
    - rewrite Hfcb by lia. reflexivity.
    - exists 46%Z. split; [exact H500 | reflexivity].
    - intros k' c Hk' Hc _. rewrite (Hse k' c Hk' Hc). lia. }
  assert (Hce1 : chunk_end_of (mkOptions 512 50 true im) page 451 = Some 600).
  { unfold chunk_end_of. cbv zeta. cbn [max_chunk_size preserve_sentence_boundaries].
    rewrite Hl, (Hfcb (Nat.min (451 + 512) 600)) by lia. reflexivity. }
  destruct (ascii_trim_around page 0 501 500 46%Z) as (a1 & b1 & Ha1 & Hb1 & Ht1);
    auto; try lia.
  destruct (ascii_trim_around page 451 600 500 46%Z) as (a2 & b2 & Ha2 & Hb2 & Ht2);
    auto; try lia.
  replace b1 with 501 in Ht1 by lia.
  exists a1, a2, b2. split; [lia|]. split; [lia|]. split; [lia|].
  assert (Hrun : page_chunks_loop (S 600) (mkOptions 512 50 true im) 1 page 0 [] 0 =
     Done ([mkChunk 0 1 (substring page a1 501) 1.0%float 0.0%float 0.0%float 0.0%float 0.0%float;
            mkChunk 1 1 (substring page a2 b2) 1.0%float 0.0%float 0.0%float 0.0%float 0.0%float], 2)).
  { rewrite page_chunks_loop_S, Hl, Hfcb by lia. rewrite Hce0.
    rewrite str_slice_ok by (try apply Hbd; lia). fold (substring page 0 501).
    rewrite Ht1, is_empty_substring by lia.
    cbn -[page_chunks_loop substring].
    rewrite page_chunks_loop_S, Hl, Hfcb by lia. rewrite Hce1.
    rewrite str_slice_ok by (try apply Hbd; lia). fold (substring page 451 600).
    rewrite Ht2, is_empty_substring by lia.
    reflexivity. }
  split.
  - unfold extract_chunks_all. cbn [extract_chunks_pages].
    rewrite extract_chunks_page_loop_as_page, Hl. change (0 + 1) with 1. rewrite Hrun. reflexivity.
  - unfold page_chunks. rewrite Hl, Hrun. reflexivity.
Qed.
Lemma sentence_boundary_example_witness :
  length (repeat 97%Z 500 ++ [46%Z] ++ repeat 32%Z 99) = 600 /\ forallb is_ascii_byte (repeat 97%Z 500 ++ [46%Z] ++ repeat 32%Z 99) = true /\
  nth_error (repeat 97%Z 500 ++ [46%Z] ++ repeat 32%Z 99) 500 = Some 46%Z /\ sentence_end_offsets (repeat 97%Z 500 ++ [46%Z] ++ repeat 32%Z 99) = [500] /\
  exists a1 a2 b2, a1 <= 500 /\ 451 <= a2 <= 500 /\ 500 < b2 <= 600 /\
    extract_chunks_all (mkOptions 512 50 true true) [(repeat 97%Z 500 ++ [46%Z] ++ repeat 32%Z 99)] =
      Done [mkChunk 0 1 (substring (repeat 97%Z 500 ++ [46%Z] ++ repeat 32%Z 99) a1 501) 1.0%float 0.0%float 0.0%float 0.0%float 0.0%float;
            mkChunk 1 1 (substring (repeat 97%Z 500 ++ [46%Z] ++ repeat 32%Z 99) a2 b2) 1.0%float 0.0%float 0.0%float 0.0%float 0.0%float] /\
    page_chunks (mkOptions 512 50 true true) 1 (repeat 97%Z 500 ++ [46%Z] ++ repeat 32%Z 99) =
      Done [mkChunk 0 1 (substring (repeat 97%Z 500 ++ [46%Z] ++ repeat 32%Z 99) a1 501) 1.0%float 0.0%float 0.0%float 0.0%float 0.0%float;
            mkChunk 1 1 (substring (repeat 97%Z 500 ++ [46%Z] ++ repeat 32%Z 99) a2 b2) 1.0%float 0.0%float 0.0%float 0.0%float 0.0%float].
Proof.
  split; [reflexivity|]. split; [vm_compute; reflexivity|].
  split; [reflexivity|]. split; [vm_compute; reflexivity|].
  apply (sentence_boundary_example true (repeat 97%Z 500 ++ [46%Z] ++ repeat 32%Z 99));
    [reflexivity | vm_compute; reflexivity | reflexivity | vm_compute; reflexivity].
Defined.

(** C5 (as stated, refuted): with [max_chunk_size = 1] the one-character
    page ["é"] (bytes [C3 A9]) gives a chunk of 2 bytes, more than
    [max_chunk_size]: the window end [1] is inside the character and is
    moved forward to the next boundary. *)
Lemma chunk_text_longer_than_max :
  run_utf8_validation [195; 169]%Z = true /\
  exists cs c, extract_chunks_all (mkOptions 1 0 true true) [[195; 169]%Z] = Done cs /\
    In c cs /\ max_chunk_size (mkOptions 1 0 true true) < length (text c).
Proof.
  split; [reflexivity|].
  eexists; eexists. split; [reflexivity|]. split; [left; reflexivity|]. simpl. lia.
Qed.

(** C5 (amended): for valid UTF-8 pages, every chunk of both chunking
    loops has at most [max_chunk_size + 3] bytes: the window
    [start .. start + max_chunk_size] is only widened by snapping its end
    forward to a character boundary (at most 3 bytes on); the sentence
    search and the trimming only shorten it. *)
Theorem chunk_text_length_bound : forall opts pages pnum page,
  forallb run_utf8_validation pages = true -> run_utf8_validation page = true ->
  (exists cs, extract_chunks_all opts pages = Done cs /\
     Forall (fun c => length (text c) <= max_chunk_size opts + 3) cs) /\
  (exists cs, page_chunks opts pnum page = Done cs /\
     Forall (fun c => length (text c) <= max_chunk_size opts + 3) cs).
Proof.
  intros opts pages pnum page Hpages Hpage. split.
  - destruct (extract_chunks_pages_spec pages opts 0 [] 0) as (L & H1 & _ & H3).
    exists L. split; [exact H1|].
    eapply Forall_impl; [|exact H3]. intros c [_ (p & Hp & Hw)].
    apply (chunk_window_length opts p c); [|exact Hw].
    eapply forallb_forall; [exact Hpages | eapply nth_error_In; exact Hp].
  - destruct (page_chunks_spec opts pnum page) as (cs & H1 & _ & H3).
    exists cs. split; [exact H1|].
    eapply Forall_impl; [|exact H3]. intros c [_ Hw].
    exact (chunk_window_length opts page c Hpage Hw).
Qed.

Lemma chunk_text_length_bound_witness :
  forallb run_utf8_validation [[195; 169]%Z] = true /\
  run_utf8_validation [240; 159; 152; 128; 46]%Z = true /\
  (exists cs, extract_chunks_all (mkOptions 1 0 true true) [[195; 169]%Z] = Done cs /\
     Forall (fun c => length (text c) <= 1 + 3) cs) /\
  (exists cs, page_chunks (mkOptions 1 0 true true) 1 [240; 159; 152; 128; 46]%Z = Done cs /\
     Forall (fun c => length (text c) <= 1 + 3) cs).
Proof.
  split; [reflexivity|]. split; [reflexivity|].
  apply (chunk_text_length_bound (mkOptions 1 0 true true) [[195; 169]%Z] 1
           [240; 159; 152; 128; 46]%Z); reflexivity.
Defined.

(** C10: on one page, the loop of [oxidize_extract_chunks] (from any
    accumulated [chunks] and [chunk_index]) and the loop of
    [oxidize_extract_chunks_from_page] (with page number [page_num + 1])
    emit the same chunk texts in the same order, with the same page
    numbers; the indices differ by the running [chunk_index]. *)
Theorem chunk_loops_agree : forall opts page pn chunks ci,
  exists L one,
    extract_chunks_page_loop (S (length page)) opts pn page 0 chunks ci =
      Done (chunks ++ L, ci + length L) /\
    page_chunks opts (pn + 1) page = Done one /\
    map text L = map text one /\ map page_number L = map page_number one /\
    map index L = map (Nat.add ci) (map index one).
Proof.
  intros opts page pn chunks ci.
  destruct (page_chunks_loop_spec (S (length page)) opts (pn + 1) page 0 chunks ci)
    as (L & H1 & H2 & _); [lia|].
  assert (HL := H1 (S (length page)) (le_n _)).
  destruct (page_chunks_loop_rel _ _ _ _ _ _ _ [] 0 _ _ HL)
    as (a2 & n2 & L1 & L2 & G1 & G2 & G3 & G4 & G5).
  apply app_inv_head in G2. subst L1 a2.
  destruct (page_chunks_spec opts (pn + 1) page) as (one & P1 & P2 & _).
  unfold page_chunks in P1. rewrite G1 in P1. injection P1 as <-.
  exists L, L2. rewrite extract_chunks_page_loop_as_page.
  split; [exact HL|]. split; [unfold page_chunks; rewrite G1; reflexivity|].
  split; [exact G4|]. split; [exact G5|].
  assert (Hl : length L = length L2)
    by (rewrite <- (length_map text L), <- (length_map text L2), G4; reflexivity).
  rewrite H2, P2, map_add_seq, Nat.add_0_r, Hl. reflexivity.
Qed.

(* ================================================================== *)
(** * The claim about [find_char_boundary] *)

(** C4 (as stated, refuted): past the end the result is [s.len()], which is
    below the index: [find_char_boundary("h", 5) = 1 < 5]. *)
Lemma find_char_boundary_below_index :
  run_utf8_validation [104%Z] = true /\ find_char_boundary [104%Z] 5 < 5.
Proof. split; [reflexivity | vm_compute; lia]. Qed.

(** C4 (amended): [find_char_boundary s i] returns [s.len()] when
    [i >= s.len()]; for [i <= s.len()] it returns the least character
    boundary at or after [i]; the result is always a boundary, at most
    [s.len()], and never strictly inside an encoded character [c] of
    [s = p ++ c ++ q] (this holds for any bytes, valid UTF-8 or not). *)
Theorem find_char_boundary_correct : forall s i,
  (length s <= i -> find_char_boundary s i = length s) /\
  (i <= length s -> i <= find_char_boundary s i /\
     forall k, i <= k < find_char_boundary s i -> is_char_boundary s k = false) /\
  find_char_boundary s i <= length s /\
  is_char_boundary s (find_char_boundary s i) = true /\
  (forall p c q, s = p ++ c ++ q -> utf8_char_ok c = true ->
     ~ (length p < find_char_boundary s i < length p + length c)).
Proof.
  intros s i. split; [apply find_char_boundary_beyond|].
  split; [intros Hi; destruct (find_char_boundary_spec s i Hi) as (H1 & _ & H3); split;
          [lia | exact H3]|].
  split; [apply find_char_boundary_le_len|].
  split; [apply find_char_boundary_boundary|].
  intros p c q Hs Hc Hin.
  pose proof (find_char_boundary_boundary s i) as Hb.
  remember (find_char_boundary s i) as r eqn:Hr. clear Hr.
  subst s. replace r with (length p + (r - length p)) in Hb by lia.
  rewrite is_char_boundary_app_shift in Hb by lia.
  rewrite is_char_boundary_inside_char in Hb by (auto; lia). discriminate.
Qed.

(* ================================================================== *)
(** * The claims about the C ABI layer *)

Lemma extract_chunks_all_done : forall opts pages,
  exists cs, extract_chunks_all opts pages = Done cs.
Proof.
  intros opts pages. destruct (extract_chunks_pages_spec pages opts 0 [] 0) as (L & H & _).
  eexists. exact H.
Qed.

Lemma page_chunks_done : forall opts pnum s, exists cs, page_chunks opts pnum s = Done cs.
Proof.
  intros opts pnum s. destruct (page_chunks_spec opts pnum s) as (cs & H & _).
  eexists. exact H.
Qed.

Ltac outputs_case :=
  unfold failure_leaves_outputs; cbn;
  intros ?; repeat split; reflexivity || congruence.

Section AbiProofs.
Context `{B : PdfBackend}.

Lemma hand_over_chunks_outputs : forall chunks w0 w o,
  heap w0 = heap w -> next_addr w0 = next_addr w ->
  failure_leaves_outputs NullPtr w (Some o) (hand_over_chunks chunks w0).
Proof.
  intros chunks w0 w o Hh Hn. unfold hand_over_chunks.
  destruct (serde_json_to_string chunks) as [json|e];
    [destruct (cstring_new json) as [c|e]|]; outputs_case.
Qed.

Ltac split_cases :=
  repeat match goal with
  | |- context [match ?x with _ => _ end] => destruct x
  | |- context [if ?x then _ else _] => destruct x
  end.

(** C6: for every document (non-null [pdf_bytes] and [out] pointers) and
    every [page_number] that is [0] or greater than the number of pages the
    parser finds, [oxidize_extract_text_from_page] and
    [oxidize_extract_chunks_from_page] return [PdfParseError], leave the
    output location null and hand no buffer over. *)
Theorem page_number_out_of_range_is_parse_error :
  forall w bytes page_number options out0,
  page_number = 0 \/
  (exists reader text_pages, pdf_reader_new bytes = inl reader /\
     pdf_document_extract_text reader = inl text_pages /\ length text_pages < page_number) ->
  (exists w', oxidize_extract_text_from_page w (Some bytes) page_number (Some out0) =
                (PdfParseError, w', Some NullPtr) /\
              heap w' = heap w /\ next_addr w' = next_addr w) /\
  (exists w', oxidize_extract_chunks_from_page w (Some bytes) page_number options (Some out0) =
                Done (PdfParseError, w', Some NullPtr) /\
              heap w' = heap w /\ next_addr w' = next_addr w).
Proof.
  intros w bytes page_number options out0 Hpn.
  unfold oxidize_extract_text_from_page, oxidize_extract_chunks_from_page.
  destruct (is_empty bytes).
  { split; eexists; split; reflexivity || (split; reflexivity). }
  destruct Hpn as [->|(reader & text_pages & Hr & Hp & Hl)].
  { split; eexists; split; reflexivity || (split; reflexivity). }
  replace (page_number =? 0) with false by (symmetry; apply Nat.eqb_neq; lia).
  unfold load_pages. rewrite Hr, Hp.
  replace (length text_pages <=? page_number - 1) with true
    by (symmetry; apply Nat.leb_le; lia).
  split; eexists; split; reflexivity || (split; reflexivity).
Qed.

(** C7 (amended): for every entry point and every input, a call that does
    not return [Success] hands no buffer over, and leaves every output
    location it received null (the page count [0]), except a [NullPointer]
    status, which leaves the output location as the caller passed it.  The
    two chunking entry points never panic. *)
Theorem failed_call_leaves_outputs : forall w pdf_bytes page_number options out out_count,
  failure_leaves_outputs NullPtr w out (oxidize_extract_text w pdf_bytes out) /\
  (exists r, oxidize_extract_chunks w pdf_bytes options out = Done r /\
     failure_leaves_outputs NullPtr w out r) /\
  failure_leaves_outputs 0 w out_count (oxidize_get_page_count w pdf_bytes out_count) /\
  failure_leaves_outputs NullPtr w out
    (oxidize_extract_text_from_page w pdf_bytes page_number out) /\
  (exists r, oxidize_extract_chunks_from_page w pdf_bytes page_number options out = Done r /\
     failure_leaves_outputs NullPtr w out r) /\
  failure_leaves_outputs NullPtr w out (oxidize_version w out) /\
  failure_leaves_outputs NullPtr w out (oxidize_get_last_error w out).
Proof.
  intros w pdf_bytes page_number options out out_count.
  split; [|split; [|split; [|split; [|split; [|split]]]]].
  - unfold oxidize_extract_text. split_cases; outputs_case.
  - unfold oxidize_extract_chunks.
    destruct pdf_bytes as [bytes|], out as [o|];
      try (eexists; split; [reflexivity | outputs_case]).
    destruct (is_empty bytes); [eexists; split; [reflexivity | outputs_case]|].
    destruct (load_pages bytes) as [text_pages|msg];
      [|eexists; split; [reflexivity | outputs_case]].
    destruct (extract_chunks_all_done (chunk_options_of options) text_pages) as [cs Hcs].
    rewrite Hcs. eexists; split; [reflexivity|].
    apply hand_over_chunks_outputs; reflexivity.
  - unfold oxidize_get_page_count. split_cases; outputs_case.
  - unfold oxidize_extract_text_from_page. split_cases; outputs_case.
  - unfold oxidize_extract_chunks_from_page.
    destruct pdf_bytes as [bytes|], out as [o|];
      try (eexists; split; [reflexivity | outputs_case]).
    destruct (is_empty bytes); [eexists; split; [reflexivity | outputs_case]|].
    destruct (page_number =? 0); [eexists; split; [reflexivity | outputs_case]|].
    destruct (load_pages bytes) as [text_pages|msg];
      [|eexists; split; [reflexivity | outputs_case]].
    destruct (length text_pages <=? page_number - 1);
      [eexists; split; [reflexivity | outputs_case]|].
    destruct (page_chunks_done (chunk_options_of options) page_number
                (nth (page_number - 1) text_pages [])) as [cs Hcs].
    rewrite Hcs. eexists; split; [reflexivity|].
    apply hand_over_chunks_outputs; reflexivity.
  - unfold oxidize_version. split_cases; outputs_case.
  - unfold oxidize_get_last_error. split_cases; outputs_case.
Qed.

(** C8: the five entry points other than [oxidize_version] clear the
    diagnostic first: each call, with the diagnostic it leaves for
    [oxidize_get_last_error], is the call made with no recorded diagnostic.
    [oxidize_version] does not take that entry step: it leaves the
    diagnostic of an earlier call in place. *)
Theorem entry_points_clear_diagnostic : forall w pdf_bytes page_number options out out_count,
  oxidize_extract_text w pdf_bytes out =
    oxidize_extract_text (clear_last_error w) pdf_bytes out /\
  oxidize_extract_chunks w pdf_bytes options out =
    oxidize_extract_chunks (clear_last_error w) pdf_bytes options out /\
  oxidize_get_page_count w pdf_bytes out_count =
    oxidize_get_page_count (clear_last_error w) pdf_bytes out_count /\
  oxidize_extract_text_from_page w pdf_bytes page_number out =
    oxidize_extract_text_from_page (clear_last_error w) pdf_bytes page_number out /\
  oxidize_extract_chunks_from_page w pdf_bytes page_number options out =
    oxidize_extract_chunks_from_page (clear_last_error w) pdf_bytes page_number options out /\
  (let '(_, w', _) := oxidize_version w out in last_error w' = last_error w).
Proof.
  intros w pdf_bytes page_number options out out_count.
  do 5 (split; [reflexivity|]).
  unfold oxidize_version. destruct out; [destruct (cstring_new _)|]; reflexivity.
Qed.

End AbiProofs.

Lemma page_number_out_of_range_is_parse_error_witness :
  (3 = 0 \/
   (exists reader text_pages,
      @pdf_reader_new one_page_backend [104%Z] = inl reader /\
      @pdf_document_extract_text one_page_backend reader = inl text_pages /\
      length text_pages < 3)) /\
  (exists w', @oxidize_extract_text_from_page one_page_backend (mkWorld None [] 0)
                (Some [104%Z]) 3 (Some NullPtr) = (PdfParseError, w', Some NullPtr) /\
              heap w' = heap (mkWorld None [] 0) /\ next_addr w' = next_addr (mkWorld None [] 0)) /\
  (exists w', @oxidize_extract_chunks_from_page one_page_backend (mkWorld None [] 0)
                (Some [104%Z]) 3 None (Some NullPtr) = Done (PdfParseError, w', Some NullPtr) /\
              heap w' = heap (mkWorld None [] 0) /\ next_addr w' = next_addr (mkWorld None [] 0)).
Proof.
  assert (H : 3 = 0 \/
   (exists reader text_pages,
      @pdf_reader_new one_page_backend [104%Z] = inl reader /\
      @pdf_document_extract_text one_page_backend reader = inl text_pages /\
      length text_pages < 3))
    by (right; exists [104%Z], [[104%Z]]; split; [reflexivity | split; [reflexivity | simpl; lia]]).
  split; [exact H|].
  exact (@page_number_out_of_range_is_parse_error one_page_backend (mkWorld None [] 0)
           [104%Z] 3 None NullPtr H).
Defined.

(** C7 (as stated, refuted): a [NullPointer] status (here a null
    [pdf_bytes]) returns before [*out_text] is written, so a stale pointer
    the caller left there is still there. *)
Lemma null_pointer_keeps_stale_output :
  exists w', @oxidize_extract_text one_page_backend (mkWorld None [] 0) None (Some (Ptr 7)) =
    (NullPointer, w', Some (Ptr 7)).
Proof. eexists. reflexivity. Qed.

(** C8 (code bug): unlike the five other entry points (lines 130, 208,
    366, 418, 497), [oxidize_version] (lines 642-663) never calls
    [clear_last_error].  After an [oxidize_extract_text] call that fails on
    empty input, a successful [oxidize_version] call leaves that call's
    diagnostic recorded, and [oxidize_get_last_error] still hands it over. *)
Lemma version_keeps_previous_diagnostic :
  exists w1 p w2,
    @oxidize_extract_text one_page_backend (mkWorld None [] 0) (Some []) (Some NullPtr) =
      (PdfParseError, w1, Some NullPtr) /\
    @oxidize_version one_page_backend w1 (Some NullPtr) = (Success, w2, Some p) /\
    last_error w2 = Some (bytes_of "PDF data is empty (0 bytes)") /\
    fst (fst (oxidize_get_last_error w2 (Some NullPtr))) = Success /\
    snd (oxidize_get_last_error w2 (Some NullPtr)) <> Some NullPtr.
Proof.
  do 3 eexists. split; [reflexivity|]. split; [reflexivity|]. split; [reflexivity|].
  split; [reflexivity | discriminate].
Qed.

(** C9: [oxidize_free_string] on a null pointer returns at once: nothing
    freed, no diagnostic, the world unchanged. *)
Theorem free_string_null_is_noop : forall w, oxidize_free_string w NullPtr = Some w.
Proof. reflexivity. Qed.

(* ================================================================== *)
(** * Further properties *)

(** [find_char_boundary] is monotone and idempotent, and returns [i] itself
    exactly when [i] is a character boundary no larger than [s.len()]. *)
Theorem find_char_boundary_monotone_idempotent : forall s i j,
  (i <= j -> find_char_boundary s i <= find_char_boundary s j) /\
  find_char_boundary s (find_char_boundary s i) = find_char_boundary s i /\
  (find_char_boundary s i = i <-> i <= length s /\ is_char_boundary s i = true).
Proof.
  intros s i j. split; [|split].
  - intros Hij. destruct (Nat.le_gt_cases (length s) j).
    + rewrite (find_char_boundary_beyond s j) by lia. apply find_char_boundary_le_len.
    + destruct (find_char_boundary_spec s j) as (Hj & Hjb & _); [lia|].
      apply find_char_boundary_least; auto; lia.
  - pose proof (find_char_boundary_le_len s i) as Hle.
    pose proof (find_char_boundary_boundary s i) as Hb.
    destruct (find_char_boundary_spec s (find_char_boundary s i) Hle) as (H1 & _).
    pose proof (find_char_boundary_least s (find_char_boundary s i) (find_char_boundary s i)
                  (le_n _) Hle Hb). lia.
  - split.
    + intros H. pose proof (find_char_boundary_le_len s i).
      pose proof (find_char_boundary_boundary s i). rewrite H in *. auto.
    + intros [Hi Hb]. destruct (find_char_boundary_spec s i Hi) as (H1 & _).
      pose proof (find_char_boundary_least s i i (le_n _) Hi Hb). lia.
Qed.

Lemma page_chunks_loop_zero_size : forall opts pnum s chunks ci,
  max_chunk_size opts = 0 ->
  page_chunks_loop (S (length s)) opts pnum s 0 chunks ci = Done (chunks, ci).
Proof.
  intros opts pnum s chunks ci H0. rewrite page_chunks_loop_S.
  destruct (0 <? length s) eqn:Hl; [|reflexivity]. apply Nat.ltb_lt in Hl.
  assert (Hf : find_char_boundary s 0 = 0).
  { destruct (find_char_boundary_spec s 0) as (H1 & _); [lia|].
    pose proof (find_char_boundary_least s 0 0 (le_n _) (Nat.le_0_l _) eq_refl). lia. }
  rewrite Hf. replace (length s <=? 0) with false by (symmetry; apply Nat.leb_gt; lia).
  destruct (chunk_end_of_spec opts s 0 Hl eq_refl) as (ce & Hce & _ & Hce2 & _).
  rewrite H0, Nat.add_0_l, Nat.min_0_l, Hf in Hce2.
  replace ce with 0 in Hce by lia. rewrite Hce.
  rewrite str_slice_ok by (reflexivity || lia). reflexivity.
Qed.

(** With [max_chunk_size = 0] neither chunking loop panics or loops: both
    emit no chunk at all, for every page. *)
Theorem zero_chunk_size_gives_no_chunks : forall opts pnum page pages,
  max_chunk_size opts = 0 ->
  page_chunks opts pnum page = Done [] /\ extract_chunks_all opts pages = Done [].
Proof.
  intros opts pnum page pages H0. split.
  - unfold page_chunks. rewrite page_chunks_loop_zero_size by exact H0. reflexivity.
  - unfold extract_chunks_all. generalize 0 at 1 as pn. generalize 0 as ci.
    induction pages as [|p rest IH]; intros ci pn; [reflexivity|].
    cbn [extract_chunks_pages].
    rewrite extract_chunks_page_loop_as_page, page_chunks_loop_zero_size by exact H0.
    apply IH.
Qed.

Lemma zero_chunk_size_gives_no_chunks_witness :
  max_chunk_size (mkOptions 0 7 true false) = 0 /\
  page_chunks (mkOptions 0 7 true false) 1 [104; 105; 46]%Z = Done [] /\
  extract_chunks_all (mkOptions 0 7 true false) [[104; 105]%Z; [33]%Z] = Done [].
Proof.
  split; [reflexivity|].
  apply (zero_chunk_size_gives_no_chunks (mkOptions 0 7 true false) 1 [104; 105; 46]%Z
           [[104; 105]%Z; [33]%Z]).
  reflexivity.
Defined.

Lemma find_char_boundary_ge_min : forall s x,
  Nat.min x (length s) <= find_char_boundary s x.
Proof.
  intros s x. destruct (Nat.le_gt_cases x (length s)).
  - destruct (find_char_boundary_spec s x) as (H1 & _); [lia|]. lia.
  - rewrite find_char_boundary_beyond by lia. lia.
Qed.

Lemma chunk_size_fifths_lt : forall m, 1 <= m -> m * 4 / 5 < m.
Proof. intros m Hm. apply Nat.Div0.div_lt_upper_bound; lia. Qed.

(** A window that stops before the end of the page reaches past
    [start + max_chunk_size * 4 / 5]. *)
Lemma chunk_end_of_progress : forall opts s start ce,
  start < length s -> 1 <= max_chunk_size opts ->
  chunk_end_of opts s start = Some ce -> ce < length s ->
  start + max_chunk_size opts * 4 / 5 < ce.
Proof.
  intros opts s start ce Hs Hm H Hce. unfold chunk_end_of in H. cbv zeta in H.
  pose proof (chunk_size_fifths_lt _ Hm) as Hf.
  set (m := max_chunk_size opts) in *.
  set (e := find_char_boundary s (Nat.min (start + m) (length s))) in *.
  pose proof (find_char_boundary_ge_min s (Nat.min (start + m) (length s))) as He1.
  pose proof (find_char_boundary_le_len s (Nat.min (start + m) (length s))) as He2.
  fold e in He1, He2.
  destruct (preserve_sentence_boundaries opts && (e <? length s)) eqn:Hp.
  - apply andb_true_iff in Hp as [_ Hp]. apply Nat.ltb_lt in Hp.
    set (ss := find_char_boundary s (start + Nat.min (m * 4 / 5) (e - start))) in *.
    pose proof (find_char_boundary_ge_min s (start + Nat.min (m * 4 / 5) (e - start))) as Hs1.
    fold ss in Hs1.
    pose proof (find_char_boundary_boundary s (start + Nat.min (m * 4 / 5) (e - start))) as Hsb.
    fold ss in Hsb.
    pose proof (find_char_boundary_boundary s (Nat.min (start + m) (length s))) as Heb.
    fold e in Heb.
    destruct (ss <? e) eqn:Hlt.
    + apply Nat.ltb_lt in Hlt.
      rewrite str_slice_ok in H by (auto; lia).
      destruct (rfind_sentence_end (firstn (e - ss) (skipn ss s))) as [i|] eqn:Hi;
        injection H as <-.
      * apply rfind_sentence_end_lt in Hi. rewrite length_firstn, length_skipn in Hi.
        pose proof (find_char_boundary_ge_min s (ss + i + 1)). lia.
      * lia.
    + injection H as <-. lia.
  - injection H as <-. lia.
Qed.

Lemma page_chunks_loop_prefix : forall fuel opts pnum s bs chunks ci out n,
  page_chunks_loop fuel opts pnum s bs chunks ci = Done (out, n) ->
  exists L, out = chunks ++ L.
Proof.
  induction fuel as [|fuel IH]; intros opts pnum s bs chunks ci out n H; [discriminate|].
  rewrite page_chunks_loop_S in H.
  destruct (bs <? length s); [|injection H as <- _; exists []; symmetry; apply app_nil_r].
  destruct (length s <=? find_char_boundary s bs);
    [injection H as <- _; exists []; symmetry; apply app_nil_r|].
  destruct (chunk_end_of opts s (find_char_boundary s bs)) as [ce|]; [|discriminate].
  destruct (str_slice s (find_char_boundary s bs) ce) as [slice|]; [|discriminate].
  destruct (negb (is_empty (trim slice)));
    destruct ((ce - overlap opts <=? bs) || (length s <=? ce)).
  - injection H as <- _. eexists; reflexivity.
  - destruct (IH _ _ _ _ _ _ _ _ H) as (L & ->). rewrite <- app_assoc. eexists; reflexivity.
  - injection H as <- _. exists []. symmetry. apply app_nil_r.
  - exact (IH _ _ _ _ _ _ _ _ H).
Qed.

(** Every non-whitespace byte of an ASCII page from [bs] on lies inside the
    text of a chunk the loop emits. *)
Lemma page_chunks_loop_cover : forall fuel opts pnum s bs chunks ci out n,
  Forall is_ascii s -> 1 <= max_chunk_size opts ->
  overlap opts <= max_chunk_size opts * 4 / 5 ->
  length s - bs < fuel ->
  page_chunks_loop fuel opts pnum s bs chunks ci = Done (out, n) ->
  forall i c, bs <= i -> nth_error s i = Some c -> is_whitespace c = false ->
  exists ch a b, In ch out /\ page_number ch = pnum /\
    a <= i < b /\ b <= length s /\ text ch = substring s a b.
Proof.
  induction fuel as [|fuel IH];
    intros opts pnum s bs chunks ci out n Ha Hm Hov Hf H i c Hi Hc Hw; [lia|].
  assert (Hil : i < length s) by (apply nth_error_Some; congruence).
  rewrite page_chunks_loop_S in H.
  replace (bs <? length s) with true in H by (symmetry; apply Nat.ltb_lt; lia).
  rewrite (ascii_find_char_boundary s bs Ha) in H by lia.
  replace (length s <=? bs) with false in H by (symmetry; apply Nat.leb_gt; lia).
  destruct (chunk_end_of_spec opts s bs) as (ce & Hce & Hce1 & Hce2 & Hceb);
    [lia | apply ascii_char_boundary; auto; lia|].
  assert (Hcel : ce <= length s)
    by (pose proof (find_char_boundary_le_len s
          (Nat.min (bs + max_chunk_size opts) (length s))); lia).
  rewrite Hce, str_slice_ok in H by (auto; apply ascii_char_boundary; auto; lia).
  fold (substring s bs ce) in H.
  destruct (Nat.lt_ge_cases i ce) as [Hlt|Hge].
  - destruct (ascii_trim_around s bs ce i c Ha (conj Hi Hlt) Hcel Hc Hw)
      as (a' & b' & Ha' & Hb' & Htr).
    rewrite Htr, is_empty_substring in H by lia. cbn [negb] in H.
    set (ch := mkChunk ci pnum (substring s a' b')
                 1.0%float 0.0%float 0.0%float 0.0%float 0.0%float) in H.
    assert (Hin : exists L, out = (chunks ++ [ch]) ++ L).
    { destruct ((ce - overlap opts <=? bs) || (length s <=? ce)).
      - injection H as <- _. exists []. symmetry. apply app_nil_r.
      - exact (page_chunks_loop_prefix _ _ _ _ _ _ _ _ _ H). }
    destruct Hin as (L & ->). exists ch, a', b'.
    split; [apply in_or_app; left; apply in_or_app; right; left; reflexivity|].
    split; [reflexivity|]. split; [lia|]. split; [lia|reflexivity].
  - assert (Hprog := chunk_end_of_progress opts s bs ce ltac:(lia) Hm Hce ltac:(lia)).
    replace ((ce - overlap opts <=? bs) || (length s <=? ce)) with false in H
      by (symmetry; apply orb_false_iff; split; apply Nat.leb_gt; lia).
    destruct (negb (is_empty (trim (substring s bs ce))));
      (eapply IH; [exact Ha | exact Hm | exact Hov | | exact H | | exact Hc | exact Hw]; lia).
Qed.

(** Chunking loses no text: when [max_chunk_size >= 1] and
    [overlap <= max_chunk_size * 4 / 5], every non-whitespace byte of an ASCII
    page lies inside the text [page[a..b]] of some chunk of that page, both for
    [oxidize_extract_chunks_from_page] and for [oxidize_extract_chunks]. *)
Theorem chunks_cover_page_text : forall opts pnum page pages,
  1 <= max_chunk_size opts -> overlap opts <= max_chunk_size opts * 4 / 5 ->
  forallb is_ascii_byte page = true -> forallb (forallb is_ascii_byte) pages = true ->
  (exists cs, page_chunks opts pnum page = Done cs /\
     forall i c, nth_error page i = Some c -> is_whitespace c = false ->
     exists ch a b, In ch cs /\ page_number ch = pnum /\
       a <= i < b /\ b <= length page /\ text ch = substring page a b) /\
  (exists cs, extract_chunks_all opts pages = Done cs /\
     forall k p i c, nth_error pages k = Some p ->
     nth_error p i = Some c -> is_whitespace c = false ->
     exists ch a b, In ch cs /\ page_number ch = S k /\
       a <= i < b /\ b <= length p /\ text ch = substring p a b).
Proof.
  intros opts pnum page pages Hm Hov Hpage Hpages. split.
  - destruct (page_chunks_loop_spec (S (length page)) opts pnum page 0 [] 0)
      as (L & HL & _); [lia|].
    exists L. unfold page_chunks. rewrite HL by lia. split; [reflexivity|].
    intros i c Hc Hw.
    exact (page_chunks_loop_cover (S (length page)) opts pnum page 0 [] 0 L (0 + length L)
             (forallb_ascii page Hpage) Hm Hov ltac:(lia) ltac:(apply HL; lia)
             i c ltac:(lia) Hc Hw).
  - unfold extract_chunks_all.
    assert (G : forall pages pn chunks ci,
      forallb (forallb is_ascii_byte) pages = true ->
      exists cs, extract_chunks_pages opts pages pn chunks ci = Done cs /\
        (exists L, cs = chunks ++ L) /\
        forall k p i c, nth_error pages k = Some p ->
        nth_error p i = Some c -> is_whitespace c = false ->
        exists ch a b, In ch cs /\ page_number ch = pn + S k /\
          a <= i < b /\ b <= length p /\ text ch = substring p a b).
    { clear Hpages. induction pages0 as [|q rest IH]; intros pn chunks ci Hq.
      - exists chunks. split; [reflexivity|]. split; [exists []; symmetry; apply app_nil_r|].
        intros [|k]; discriminate.
      - cbn [forallb] in Hq. apply andb_true_iff in Hq as [Hq Hrest].
        destruct (page_chunks_loop_spec (S (length q)) opts (pn + 1) q 0 chunks ci)
          as (L1 & H1 & _); [lia|].
        destruct (IH (S pn) (chunks ++ L1) (ci + length L1) Hrest)
          as (cs & G1 & (L2 & ->) & G3).
        exists ((chunks ++ L1) ++ L2). cbn [extract_chunks_pages].
        rewrite extract_chunks_page_loop_as_page, H1 by lia.
        split; [exact G1|]. split; [exists (L1 ++ L2); symmetry; apply app_assoc|].
        intros [|k] p i c Hk Hc Hw.
        + injection Hk as <-.
          destruct (page_chunks_loop_cover (S (length q)) opts (pn + 1) q 0 chunks ci
                      (chunks ++ L1) (ci + length L1)
                      (forallb_ascii q Hq) Hm Hov ltac:(lia) ltac:(apply H1; lia)
                      i c ltac:(lia) Hc Hw) as (ch & a & b & Hin & Hpn & Hab).
          exists ch, a, b. split; [apply in_or_app; left; exact Hin|].
          split; [lia|exact Hab].
        + destruct (G3 k p i c Hk Hc Hw) as (ch & a & b & Hin & Hpn & Hab).
          exists ch, a, b. split; [exact Hin|]. split; [lia|exact Hab]. }
    destruct (G pages 0 [] 0 Hpages) as (cs & G1 & _ & G3).
    exists cs. split; [exact G1|]. exact G3.
Qed.

Lemma chunks_cover_page_text_witness :
  (exists cs, page_chunks (mkOptions 4 3 true false) 1 [104; 105; 46; 32; 120]%Z = Done cs /\
     forall i c, nth_error [104; 105; 46; 32; 120]%Z i = Some c -> is_whitespace c = false ->
     exists ch a b, In ch cs /\ page_number ch = 1 /\
       a <= i < b /\ b <= 5 /\ text ch = substring [104; 105; 46; 32; 120]%Z a b) /\
  (exists cs, extract_chunks_all (mkOptions 4 3 true false) [[104; 105; 46; 32; 120]%Z] = Done cs /\
     forall k p i c, nth_error [[104; 105; 46; 32; 120]%Z] k = Some p ->
     nth_error p i = Some c -> is_whitespace c = false ->
     exists ch a b, In ch cs /\ page_number ch = S k /\
       a <= i < b /\ b <= length p /\ text ch = substring p a b).
Proof.
  apply (chunks_cover_page_text (mkOptions 4 3 true false) 1 [104; 105; 46; 32; 120]%Z
           [[104; 105; 46; 32; 120]%Z]); cbn; (reflexivity || lia).
Defined.

Lemma map_pair_eq : forall (A B C : Type) (f : A -> B) (g : A -> C) l1 l2,
  map f l1 = map f l2 -> map g l1 = map g l2 ->
  map (fun x => (f x, g x)) l1 = map (fun x => (f x, g x)) l2.
Proof.
  intros A B C f g. induction l1 as [|x l1 IH]; intros [|y l2] H1 H2; try discriminate;
    [reflexivity|]. cbn [map] in *. injection H1 as H1a H1b. injection H2 as H2a H2b.
  rewrite H1a, H2a, (IH l2 H1b H2b). reflexivity.
Qed.

Lemma extract_chunks_pages_concat : forall pages opts pn chunks ci,
  exists L ones, extract_chunks_pages opts pages pn chunks ci = Done (chunks ++ L) /\
    length ones = length pages /\
    (forall k p, nth_error pages k = Some p ->
       exists one, nth_error ones k = Some one /\ page_chunks opts (pn + S k) p = Done one) /\
    map chunk_key L = concat (map (map chunk_key) ones).
Proof.
  induction pages as [|q rest IH]; intros opts pn chunks ci.
  - exists [], []. rewrite app_nil_r. split; [reflexivity|]. split; [reflexivity|].
    split; [intros [|k]; discriminate | reflexivity].
  - destruct (page_chunks_loop_spec (S (length q)) opts (pn + 1) q 0 chunks ci)
      as (L1 & H1 & _); [lia|].
    destruct (page_chunks_loop_spec (S (length q)) opts (pn + 1) q 0 [] 0)
      as (one & O1 & _); [lia|].
    destruct (page_chunks_loop_rel _ _ _ _ _ _ _ chunks ci _ _ (O1 _ (le_n _)))
      as (a2 & n2 & M1 & M2 & R1 & R2 & R3 & R4 & R5).
    rewrite H1 in R1 by lia. injection R1 as R1 _.
    rewrite R3 in R1. apply app_inv_head in R1. subst M2.
    cbn [app] in R2. subst M1.
    destruct (IH opts (S pn) (chunks ++ L1) (ci + length L1)) as (L2 & ones & G1 & G2 & G3 & G4).
    exists (L1 ++ L2), (one :: ones). cbn [extract_chunks_pages].
    rewrite extract_chunks_page_loop_as_page, H1, G1, app_assoc by lia.
    split; [reflexivity|]. split; [cbn [length]; rewrite G2; reflexivity|]. split.
    + intros [|k] p Hk.
      * injection Hk as <-. exists one. split; [reflexivity|].
        unfold page_chunks. rewrite O1 by lia. reflexivity.
      * destruct (G3 k p Hk) as (o & Ho1 & Ho2). exists o. split; [exact Ho1|].
        rewrite <- Ho2. f_equal. lia.
    + rewrite map_app, G4. cbn [map concat]. f_equal.
      unfold chunk_key. apply map_pair_eq; symmetry; assumption.
Qed.

(** The chunks of [oxidize_extract_chunks] are the chunks that
    [oxidize_extract_chunks_from_page] gives for pages [1, 2, ...], in page
    order, with the same page numbers and texts, renumbered [0 .. n-1]
    across the document. *)
Theorem extract_chunks_is_concat_of_pages : forall opts pages,
  exists cs ones, extract_chunks_all opts pages = Done cs /\
    length ones = length pages /\
    (forall k p, nth_error pages k = Some p ->
       exists one, nth_error ones k = Some one /\ page_chunks opts (S k) p = Done one) /\
    map chunk_key cs = concat (map (map chunk_key) ones) /\
    map index cs = seq 0 (length cs).
Proof.
  intros opts pages.
  destruct (extract_chunks_pages_concat pages opts 0 [] 0) as (L & ones & H1 & H2 & H3 & H4).
  destruct (extract_chunks_pages_spec pages opts 0 [] 0) as (L' & G1 & G2 & _).
  rewrite H1 in G1. injection G1 as <-.
  exists L, ones. unfold extract_chunks_all. rewrite H1. auto 6.
Qed.

(* ------------------------------------------------------------------ *)
(** ** Buffers and diagnostics at the ABI *)

Lemma cstring_new_inl : forall v c, cstring_new v = inl c -> c = v /\ find_nul v = None.
Proof.
  intros v c H. unfold cstring_new in H. destruct (find_nul v); [discriminate|].
  injection H as <-. auto.
Qed.

Ltac abi_split :=
  repeat (cbn [into_raw fst snd on_done] in *;
    match goal with
    | |- context [match ?x with _ => _ end] => destruct x eqn:?
    | |- context [if ?x then _ else _] => destruct x eqn:?
    end).

Ltac abi_shape :=
  abi_split; cbn [keeps_or_hands_over fails_or_hands_over on_done next_addr heap
                  clear_last_error set_last_error] in *;
  solve [ trivial
        | left; repeat split; (reflexivity || discriminate)
        | right; split; [reflexivity|];
          match goal with H : cstring_new _ = inl _ |- _ =>
            apply cstring_new_inl in H as [-> ?] end;
          eexists; repeat split; eassumption || reflexivity ].

Section AbiExtras.
Context `{B : PdfBackend}.

Lemma hand_over_chunks_shape : forall chunks w,
  fails_or_hands_over w (hand_over_chunks chunks (clear_last_error w)).
Proof. intros chunks w. unfold hand_over_chunks. abi_shape. Qed.

Lemma extract_text_shape : forall w pdf_bytes out,
  fails_or_hands_over w (oxidize_extract_text w pdf_bytes out).
Proof. intros. unfold oxidize_extract_text. abi_shape. Qed.

Lemma extract_chunks_shape : forall w pdf_bytes options out,
  on_done (fails_or_hands_over w) (oxidize_extract_chunks w pdf_bytes options out).
Proof.
  intros. unfold oxidize_extract_chunks.
  abi_split; try abi_shape; apply hand_over_chunks_shape.
Qed.

Lemma extract_text_from_page_shape : forall w pdf_bytes page_number out,
  fails_or_hands_over w (oxidize_extract_text_from_page w pdf_bytes page_number out).
Proof. intros. unfold oxidize_extract_text_from_page. abi_shape. Qed.

Lemma extract_chunks_from_page_shape : forall w pdf_bytes page_number options out,
  on_done (fails_or_hands_over w)
    (oxidize_extract_chunks_from_page w pdf_bytes page_number options out).
Proof.
  intros. unfold oxidize_extract_chunks_from_page.
  abi_split; try abi_shape; apply hand_over_chunks_shape.
Qed.

Lemma version_shape : forall w out, fails_or_hands_over w (oxidize_version w out).
Proof. intros. unfold oxidize_version. abi_shape. Qed.

Lemma get_last_error_shape : forall w out, keeps_or_hands_over w (oxidize_get_last_error w out).
Proof. intros. unfold oxidize_get_last_error. abi_shape. Qed.

Lemma get_page_count_heap : forall w pdf_bytes out_count,
  heap (world_after (oxidize_get_page_count w pdf_bytes out_count)) = heap w /\
  next_addr (world_after (oxidize_get_page_count w pdf_bytes out_count)) = next_addr w.
Proof. intros. unfold oxidize_get_page_count, world_after. abi_split; split; reflexivity. Qed.

End AbiExtras.

Lemma find_fst_below : forall (l : list (nat * list Z)) a,
  Forall (fun e => fst e < a) l -> find (fun e => fst e =? a) l = None.
Proof.
  induction l as [|e l IH]; intros a H; [reflexivity|]. inversion H; subst.
  cbn [find]. replace (fst e =? a) with false by (symmetry; apply Nat.eqb_neq; lia).
  auto.
Qed.

Lemma filter_fst_below : forall (l : list (nat * list Z)) a,
  Forall (fun e => fst e < a) l -> filter (fun e => negb (fst e =? a)) l = l.
Proof.
  induction l as [|e l IH]; intros a H; [reflexivity|]. inversion H; subst.
  cbn [filter]. replace (fst e =? a) with false by (symmetry; apply Nat.eqb_neq; lia).
  cbn [negb]. f_equal. auto.
Qed.

Lemma find_filter_fst : forall (l : list (nat * list Z)) a b,
  find (fun e => fst e =? b) (filter (fun e => negb (fst e =? a)) l) =
  if b =? a then None else find (fun e => fst e =? b) l.
Proof.
  induction l as [|e l IH]; intros a b; [destruct (b =? a); reflexivity|].
  cbn [filter find]. destruct (fst e =? a) eqn:Ea; cbn [negb find].
  - rewrite IH. apply Nat.eqb_eq in Ea. destruct (b =? a) eqn:Eb; [reflexivity|].
    apply Nat.eqb_neq in Eb. replace (fst e =? b) with false
      by (symmetry; apply Nat.eqb_neq; lia). reflexivity.
  - destruct (fst e =? b) eqn:Eb.
    + apply Nat.eqb_neq in Ea. apply Nat.eqb_eq in Eb.
      replace (b =? a) with false by (symmetry; apply Nat.eqb_neq; lia). reflexivity.
    + apply IH.
Qed.

Lemma heap_ok_filter : forall w a,
  heap_ok w ->
  heap_ok (mkWorld (last_error w) (filter (fun e => negb (fst e =? a)) (heap w)) (next_addr w)).
Proof.
  intros [le h n] a [H1 H2]. cbn [heap next_addr last_error] in *. split.
  - apply Forall_forall. intros x Hx. apply filter_In in Hx as [Hx _].
    eapply Forall_forall in H1; [exact H1|exact Hx].
  - induction h as [|e h IH]; [constructor|].
    inversion H1; subst. inversion H2; subst. cbn [filter].
    destruct (negb (fst e =? a)); [|auto]. cbn [map]. constructor; [|auto].
    intros Hin. apply in_map_iff in Hin as (x & Hx & Hin). apply filter_In in Hin as [Hin _].
    match goal with H : ~ In (fst e) (map fst h) |- _ => apply H end.
    rewrite <- Hx. apply in_map. exact Hin.
Qed.

Lemma keeps_or_hands_over_heap : forall w r,
  heap_ok w -> keeps_or_hands_over w r ->
  heap_ok (world_after r) /\
  (forall b v, lookup_buffer w b = Some v -> lookup_buffer (world_after r) b = Some v).
Proof.
  intros w [[code w'] out] [H1 H2] Hr. unfold world_after. cbn [fst snd].
  destruct Hr as [[Hh Hn]|(_ & c & _ & _ & Hh & Hn)].
  - unfold heap_ok, lookup_buffer. rewrite Hh, Hn. auto.
  - unfold heap_ok, lookup_buffer. rewrite Hh, Hn. split; [split|].
    + constructor; [cbn; lia|]. eapply Forall_impl; [|exact H1]. cbn; intros; lia.
    + cbn [map]. constructor; [|exact H2]. intros Hin.
      apply in_map_iff in Hin as (x & Hx & Hin).
      eapply Forall_forall in H1; [|exact Hin]. cbn in H1, Hx. lia.
    + intros b v Hb. cbn [find fst]. destruct (next_addr w =? b) eqn:E; [|exact Hb].
      apply Nat.eqb_eq in E. subst b.
      rewrite find_fst_below in Hb by exact H1. discriminate.
Qed.

Lemma fails_or_hands_over_keeps : forall w r,
  fails_or_hands_over w r -> keeps_or_hands_over w r.
Proof.
  intros w [[code w'] out] [(_ & H)|H]; [left; exact H|right; exact H].
Qed.

Lemma fails_or_hands_over_success : forall w r,
  heap_ok w -> fails_or_hands_over w r -> success_hands_over_buffer w r.
Proof.
  intros w [[code w'] out] [H1 H2] [(Hc & _)|(_ & c & Hc & Ho & Hh & Hn)] Hs;
    [contradiction|].
  exists (next_addr w), c.
  eexists. split; [exact Ho|]. split; [exact Hc|].
  unfold lookup_buffer, oxidize_free_string. rewrite Hh. cbn [find fst].
  rewrite Nat.eqb_refl. split; [reflexivity|]. split; [reflexivity|].
  cbn [heap filter fst]. rewrite Nat.eqb_refl. cbn [negb].
  rewrite filter_fst_below by exact H1. split; [reflexivity|].
  rewrite find_fst_below by exact H1. reflexivity.
Qed.

Section AbiExtraTheorems.
Context `{B : PdfBackend}.

Lemma oxidize_extract_chunks_done : forall w pdf_bytes options out,
  exists r, oxidize_extract_chunks w pdf_bytes options out = Done r.
Proof.
  intros. unfold oxidize_extract_chunks.
  destruct pdf_bytes as [bytes|], out; try (eexists; reflexivity).
  destruct (is_empty bytes); [eexists; reflexivity|].
  destruct (load_pages bytes) as [text_pages|]; [|eexists; reflexivity].
  destruct (extract_chunks_all_done (chunk_options_of options) text_pages) as [cs ->].
  eexists; reflexivity.
Qed.

Lemma oxidize_extract_chunks_from_page_done : forall w pdf_bytes page_number options out,
  exists r, oxidize_extract_chunks_from_page w pdf_bytes page_number options out = Done r.
Proof.
  intros w pdf_bytes pn options out. unfold oxidize_extract_chunks_from_page.
  destruct pdf_bytes as [bytes|], out; try (eexists; reflexivity).
  destruct (is_empty bytes); [eexists; reflexivity|].
  destruct (pn =? 0); [eexists; reflexivity|].
  destruct (load_pages bytes) as [text_pages|]; [|eexists; reflexivity].
  destruct (length text_pages <=? pn - 1); [eexists; reflexivity|].
  destruct (page_chunks_done (chunk_options_of options) pn
              (nth (pn - 1) text_pages [])) as [cs ->].
  eexists; reflexivity.
Qed.

Lemma on_done_exists : forall (A : Type) (P : A -> Prop) (o : outcome A),
  on_done P o -> (exists r, o = Done r) -> exists r, o = Done r /\ P r.
Proof. intros A P o H [r ->]. exists r. auto. Qed.

Lemma keeps_buffers_kept : forall w r,
  heap_ok w -> keeps_or_hands_over w r -> buffers_kept w (world_after r).
Proof. intros w r Hw Hr. exact (keeps_or_hands_over_heap w r Hw Hr). Qed.

(** No entry point frees or changes a buffer the caller holds: from a
    well-formed heap, every call leaves the heap well formed and every live
    buffer live with the same bytes. *)
Theorem entry_points_keep_live_buffers :
  forall w pdf_bytes page_number options out out_count,
  heap_ok w ->
  buffers_kept w (world_after (oxidize_extract_text w pdf_bytes out)) /\
  (exists r, oxidize_extract_chunks w pdf_bytes options out = Done r /\
     buffers_kept w (world_after r)) /\
  buffers_kept w (world_after (oxidize_get_page_count w pdf_bytes out_count)) /\
  buffers_kept w (world_after (oxidize_extract_text_from_page w pdf_bytes page_number out)) /\
  (exists r, oxidize_extract_chunks_from_page w pdf_bytes page_number options out = Done r /\
     buffers_kept w (world_after r)) /\
  buffers_kept w (world_after (oxidize_version w out)) /\
  buffers_kept w (world_after (oxidize_get_last_error w out)).
Proof.
  intros w pdf_bytes page_number options out out_count Hw.
  split; [|split; [|split; [|split; [|split; [|split]]]]].
  - apply keeps_buffers_kept; [exact Hw|].
    apply fails_or_hands_over_keeps, extract_text_shape.
  - destruct (on_done_exists _ _ _ (extract_chunks_shape w pdf_bytes options out)
                (oxidize_extract_chunks_done w pdf_bytes options out)) as (r & Hr & Hs).
    exists r. split; [exact Hr|].
    apply keeps_buffers_kept; [exact Hw|]. apply fails_or_hands_over_keeps, Hs.
  - destruct (get_page_count_heap w pdf_bytes out_count) as [Hh Hn].
    unfold buffers_kept, heap_ok, lookup_buffer. rewrite Hh, Hn. exact (conj Hw (fun _ _ H => H)).
  - apply keeps_buffers_kept; [exact Hw|].
    apply fails_or_hands_over_keeps, extract_text_from_page_shape.
  - destruct (on_done_exists _ _ _
                (extract_chunks_from_page_shape w pdf_bytes page_number options out)
                (oxidize_extract_chunks_from_page_done w pdf_bytes page_number options out))
      as (r & Hr & Hs).
    exists r. split; [exact Hr|].
    apply keeps_buffers_kept; [exact Hw|]. apply fails_or_hands_over_keeps, Hs.
  - apply keeps_buffers_kept; [exact Hw|]. apply fails_or_hands_over_keeps, version_shape.
  - apply keeps_buffers_kept; [exact Hw|]. apply get_last_error_shape.
Qed.

(** Every [Success] of an entry point that returns a string hands over one
    new buffer at the output location: a nul-terminated copy of a string
    without nul bytes, which [oxidize_free_string] releases, giving back the
    heap from before the call; releasing it a second time is undefined
    behaviour. *)
Theorem success_hands_over_fresh_buffer : forall w pdf_bytes page_number options out,
  heap_ok w ->
  success_hands_over_buffer w (oxidize_extract_text w pdf_bytes out) /\
  (exists r, oxidize_extract_chunks w pdf_bytes options out = Done r /\
     success_hands_over_buffer w r) /\
  success_hands_over_buffer w (oxidize_extract_text_from_page w pdf_bytes page_number out) /\
  (exists r, oxidize_extract_chunks_from_page w pdf_bytes page_number options out = Done r /\
     success_hands_over_buffer w r) /\
  success_hands_over_buffer w (oxidize_version w out).
Proof.
  intros w pdf_bytes page_number options out Hw.
  split; [|split; [|split; [|split]]].
  - apply fails_or_hands_over_success; [exact Hw | apply extract_text_shape].
  - destruct (on_done_exists _ _ _ (extract_chunks_shape w pdf_bytes options out)
                (oxidize_extract_chunks_done w pdf_bytes options out)) as (r & Hr & Hs).
    exists r. split; [exact Hr|]. apply fails_or_hands_over_success; assumption.
  - apply fails_or_hands_over_success; [exact Hw | apply extract_text_from_page_shape].
  - destruct (on_done_exists _ _ _
                (extract_chunks_from_page_shape w pdf_bytes page_number options out)
                (oxidize_extract_chunks_from_page_done w pdf_bytes page_number options out))
      as (r & Hr & Hs).
    exists r. split; [exact Hr|]. apply fails_or_hands_over_success; assumption.
  - apply fails_or_hands_over_success; [exact Hw | apply version_shape].
Qed.

End AbiExtraTheorems.

Lemma entry_points_keep_live_buffers_witness :
  heap_ok (mkWorld None [(0, [104; 0]%Z)] 1) /\
  buffers_kept (mkWorld None [(0, [104; 0]%Z)] 1)
    (world_after (@oxidize_extract_text one_page_backend (mkWorld None [(0, [104; 0]%Z)] 1)
                    (Some [104%Z]) (Some NullPtr))) /\
  (exists r, @oxidize_extract_chunks one_page_backend (mkWorld None [(0, [104; 0]%Z)] 1)
               (Some [104%Z]) None (Some NullPtr) = Done r /\
     buffers_kept (mkWorld None [(0, [104; 0]%Z)] 1) (world_after r)) /\
  buffers_kept (mkWorld None [(0, [104; 0]%Z)] 1)
    (world_after (@oxidize_get_page_count one_page_backend (mkWorld None [(0, [104; 0]%Z)] 1)
                    (Some [104%Z]) (Some 0))) /\
  buffers_kept (mkWorld None [(0, [104; 0]%Z)] 1)
    (world_after (@oxidize_extract_text_from_page one_page_backend
                    (mkWorld None [(0, [104; 0]%Z)] 1) (Some [104%Z]) 1 (Some NullPtr))) /\
  (exists r, @oxidize_extract_chunks_from_page one_page_backend
               (mkWorld None [(0, [104; 0]%Z)] 1) (Some [104%Z]) 1 None (Some NullPtr) = Done r /\
     buffers_kept (mkWorld None [(0, [104; 0]%Z)] 1) (world_after r)) /\
  buffers_kept (mkWorld None [(0, [104; 0]%Z)] 1)
    (world_after (@oxidize_version one_page_backend (mkWorld None [(0, [104; 0]%Z)] 1)
                    (Some NullPtr))) /\
  buffers_kept (mkWorld None [(0, [104; 0]%Z)] 1)
    (world_after (oxidize_get_last_error (mkWorld None [(0, [104; 0]%Z)] 1) (Some NullPtr))).
Proof.
  assert (H : heap_ok (mkWorld None [(0, [104; 0]%Z)] 1))
    by (split; cbn; repeat constructor; cbn; (lia || tauto)).
  split; [exact H|].
  exact (@entry_points_keep_live_buffers one_page_backend (mkWorld None [(0, [104; 0]%Z)] 1)
           (Some [104%Z]) 1 None (Some NullPtr) (Some 0) H).
Defined.

Lemma success_hands_over_fresh_buffer_witness :
  heap_ok (mkWorld None [(0, [104; 0]%Z)] 1) /\
  success_hands_over_buffer (mkWorld None [(0, [104; 0]%Z)] 1)
    (@oxidize_extract_text one_page_backend (mkWorld None [(0, [104; 0]%Z)] 1)
       (Some [104%Z]) (Some NullPtr)) /\
  (exists r, @oxidize_extract_chunks one_page_backend (mkWorld None [(0, [104; 0]%Z)] 1)
               (Some [104%Z]) None (Some NullPtr) = Done r /\
     success_hands_over_buffer (mkWorld None [(0, [104; 0]%Z)] 1) r) /\
  success_hands_over_buffer (mkWorld None [(0, [104; 0]%Z)] 1)
    (@oxidize_extract_text_from_page one_page_backend (mkWorld None [(0, [104; 0]%Z)] 1)
       (Some [104%Z]) 1 (Some NullPtr)) /\
  (exists r, @oxidize_extract_chunks_from_page one_page_backend
               (mkWorld None [(0, [104; 0]%Z)] 1) (Some [104%Z]) 1 None (Some NullPtr) = Done r /\
     success_hands_over_buffer (mkWorld None [(0, [104; 0]%Z)] 1) r) /\
  success_hands_over_buffer (mkWorld None [(0, [104; 0]%Z)] 1)
    (@oxidize_version one_page_backend (mkWorld None [(0, [104; 0]%Z)] 1) (Some NullPtr)).
Proof.
  assert (H : heap_ok (mkWorld None [(0, [104; 0]%Z)] 1))
    by (split; cbn; repeat constructor; cbn; (lia || tauto)).
  split; [exact H|].
  exact (@success_hands_over_fresh_buffer one_page_backend (mkWorld None [(0, [104; 0]%Z)] 1)
           (Some [104%Z]) 1 None (Some NullPtr) H).
Defined.

(** [oxidize_free_string] on a non-null pointer is defined exactly when the
    pointer is a live buffer; on a well-formed heap it then releases that
    buffer and no other, keeps the heap well formed and leaves the
    diagnostic alone, and a second release of the same pointer is undefined
    behaviour. *)
Theorem free_string_releases_only_that_buffer : forall w a,
  heap_ok w ->
  (oxidize_free_string w (Ptr a) = None <-> lookup_buffer w a = None) /\
  (forall w', oxidize_free_string w (Ptr a) = Some w' ->
     heap_ok w' /\ lookup_buffer w' a = None /\
     (forall b, b <> a -> lookup_buffer w' b = lookup_buffer w b) /\
     last_error w' = last_error w /\ next_addr w' = next_addr w /\
     oxidize_free_string w' (Ptr a) = None).
Proof.
  intros w a Hw. unfold oxidize_free_string, lookup_buffer. split.
  - destruct (find (fun e => fst e =? a) (heap w)); cbn; split; congruence.
  - intros w' H. destruct (find (fun e => fst e =? a) (heap w)) eqn:E; [|discriminate].
    injection H as <-. cbn [heap last_error next_addr].
    split; [apply heap_ok_filter; exact Hw|].
    rewrite !find_filter_fst, Nat.eqb_refl. split; [reflexivity|].
    split; [|auto].
    intros b Hb. rewrite find_filter_fst.
    replace (b =? a) with false by (symmetry; apply Nat.eqb_neq; exact Hb).
    reflexivity.
Qed.

Lemma free_string_releases_only_that_buffer_witness :
  heap_ok (mkWorld None [(0, [104; 0]%Z); (1, [105; 0]%Z)] 2) /\
  (oxidize_free_string (mkWorld None [(0, [104; 0]%Z); (1, [105; 0]%Z)] 2) (Ptr 0) = None <->
   lookup_buffer (mkWorld None [(0, [104; 0]%Z); (1, [105; 0]%Z)] 2) 0 = None) /\
  (forall w', oxidize_free_string (mkWorld None [(0, [104; 0]%Z); (1, [105; 0]%Z)] 2) (Ptr 0)
                = Some w' ->
     heap_ok w' /\ lookup_buffer w' 0 = None /\
     (forall b, b <> 0 ->
        lookup_buffer w' b = lookup_buffer (mkWorld None [(0, [104; 0]%Z); (1, [105; 0]%Z)] 2) b) /\
     last_error w' = None /\ next_addr w' = 2 /\ oxidize_free_string w' (Ptr 0) = None).
Proof.
  assert (H : heap_ok (mkWorld None [(0, [104; 0]%Z); (1, [105; 0]%Z)] 2))
    by (split; cbn; repeat constructor; cbn; (lia || tauto)).
  split; [exact H|].
  exact (free_string_releases_only_that_buffer
           (mkWorld None [(0, [104; 0]%Z); (1, [105; 0]%Z)] 2) 0 H).
Defined.

Section AbiDiagnostics.
Context `{B : PdfBackend}.

Lemma load_pages_error_nonempty : forall bytes msg, load_pages bytes = inr msg -> msg <> [].
Proof.
  intros bytes msg H. unfold load_pages in H.
  destruct (pdf_reader_new bytes); [destruct (pdf_document_extract_text _)|];
    try discriminate; injection H as <-; unfold bytes_of; cbn; discriminate.
Qed.

Ltac diag_case :=
  cbn [diagnostic_matches_status last_error set_last_error clear_last_error on_done
       into_raw fst snd] in *;
  solve [ reflexivity | trivial
        | eexists; split; [reflexivity|];
          solve [ unfold page_out_of_range_msg, bytes_of; cbn; discriminate
                | eapply load_pages_error_nonempty; eassumption ] ].

(** The five entry points that clear the diagnostic leave one exactly when
    they fail: after [Success] [oxidize_get_last_error] finds none, and after
    any other status it finds a non-empty message. *)
Theorem entry_points_diagnostic_matches_status :
  forall w pdf_bytes page_number options out out_count,
  diagnostic_matches_status (oxidize_extract_text w pdf_bytes out) /\
  (exists r, oxidize_extract_chunks w pdf_bytes options out = Done r /\
     diagnostic_matches_status r) /\
  diagnostic_matches_status (oxidize_get_page_count w pdf_bytes out_count) /\
  diagnostic_matches_status (oxidize_extract_text_from_page w pdf_bytes page_number out) /\
  (exists r, oxidize_extract_chunks_from_page w pdf_bytes page_number options out = Done r /\
     diagnostic_matches_status r).
Proof.
  intros w pdf_bytes pn options out out_count.
  split; [|split; [|split; [|split]]].
  - unfold oxidize_extract_text. abi_split; diag_case.
  - apply on_done_exists; [|apply oxidize_extract_chunks_done].
    unfold oxidize_extract_chunks, hand_over_chunks. abi_split; diag_case.
  - unfold oxidize_get_page_count. abi_split; diag_case.
  - unfold oxidize_extract_text_from_page. abi_split; diag_case.
  - apply on_done_exists; [|apply oxidize_extract_chunks_from_page_done].
    unfold oxidize_extract_chunks_from_page, hand_over_chunks.
    abi_split; diag_case.
Qed.

End AbiDiagnostics.

(** [oxidize_get_last_error] reads without clearing: a non-empty
    diagnostic without nul bytes comes back as a new nul-terminated buffer
    at the output location and stays recorded; one with a nul byte gives
    [InvalidUtf8], a null output and an unchanged world. *)
Theorem get_last_error_reads_diagnostic : forall w o msg,
  last_error w = Some msg -> msg <> [] ->
  (find_nul msg = None ->
     exists w', oxidize_get_last_error w (Some o) = (Success, w', Some (Ptr (next_addr w))) /\
       lookup_buffer w' (next_addr w) = Some (msg ++ [0%Z]) /\ last_error w' = Some msg /\
       heap w' = (next_addr w, msg ++ [0%Z]) :: heap w) /\
  (forall pos, find_nul msg = Some pos ->
     oxidize_get_last_error w (Some o) = (InvalidUtf8, w, Some NullPtr)).
Proof.
  intros w o msg Hl Hne. unfold oxidize_get_last_error, cstring_new. rewrite Hl.
  replace (negb (is_empty msg)) with true by (destruct msg; [congruence|reflexivity]).
  split.
  - intros Hn. rewrite Hn. eexists. split; [reflexivity|].
    unfold lookup_buffer. cbn. rewrite Nat.eqb_refl. auto.
  - intros pos Hp. rewrite Hp. reflexivity.
Qed.

Lemma get_last_error_reads_diagnostic_witness :
  last_error (mkWorld (Some [104%Z]) [] 0) = Some [104%Z] /\ [104%Z] <> [] /\
  (find_nul [104%Z] = None ->
     exists w', oxidize_get_last_error (mkWorld (Some [104%Z]) [] 0) (Some NullPtr) =
                  (Success, w', Some (Ptr 0)) /\
       lookup_buffer w' 0 = Some ([104%Z] ++ [0%Z]) /\ last_error w' = Some [104%Z] /\
       heap w' = [(0, [104%Z] ++ [0%Z])]) /\
  (forall pos, find_nul [104%Z] = Some pos ->
     oxidize_get_last_error (mkWorld (Some [104%Z]) [] 0) (Some NullPtr) =
       (InvalidUtf8, mkWorld (Some [104%Z]) [] 0, Some NullPtr)).
Proof.
  split; [reflexivity|]. split; [discriminate|].
  exact (get_last_error_reads_diagnostic (mkWorld (Some [104%Z]) [] 0) NullPtr [104%Z]
           eq_refl ltac:(discriminate)).
Defined.

Lemma find_nul_app : forall a b, find_nul a = None -> find_nul b = None -> find_nul (a ++ b) = None.
Proof.
  induction a as [|x a IH]; intros b Ha Hb; [exact Hb|]. cbn [find_nul app] in *.
  destruct (x =? 0)%Z; [discriminate|].
  destruct (find_nul a) eqn:E; [discriminate|]. rewrite IH by assumption. reflexivity.
Qed.

Lemma find_nul_join_pages : forall pages,
  Forall (fun p => find_nul p = None) pages -> find_nul (join_pages pages) = None.
Proof.
  induction pages as [|p rest IH]; intros H; [reflexivity|].
  inversion H as [|? ? Hp Hrest]; subst.
  destruct rest as [|q rest']; [exact Hp|].
  change (join_pages (p :: q :: rest')) with (p ++ [10%Z; 10%Z] ++ join_pages (q :: rest')).
  apply find_nul_app; [exact Hp|]. apply find_nul_app; [reflexivity|]. auto.
Qed.

Section AbiAgreement.
Context `{B : PdfBackend}.

(** On a document the backend parses into pages without nul bytes, the
    text entry points agree: [oxidize_extract_text] hands over the pages
    joined by blank lines, [oxidize_get_page_count] returns their number, and
    [oxidize_extract_text_from_page] for a page [1 <= pn <= count] hands over
    page [pn], each as a new nul-terminated buffer. *)
Theorem text_entry_points_agree : forall w bytes o n0 reader pages pn,
  bytes <> [] -> pdf_reader_new bytes = inl reader ->
  pdf_document_extract_text reader = inl pages ->
  Forall (fun p => find_nul p = None) pages -> 1 <= pn <= length pages ->
  (exists w', oxidize_extract_text w (Some bytes) (Some o) =
                (Success, w', Some (Ptr (next_addr w))) /\
     lookup_buffer w' (next_addr w) = Some (join_pages pages ++ [0%Z])) /\
  oxidize_get_page_count w (Some bytes) (Some n0) =
    (Success, clear_last_error w, Some (length pages)) /\
  (exists w', oxidize_extract_text_from_page w (Some bytes) pn (Some o) =
                (Success, w', Some (Ptr (next_addr w))) /\
     lookup_buffer w' (next_addr w) = Some (nth (pn - 1) pages [] ++ [0%Z])).
Proof.
  intros w bytes o n0 reader pages pn Hb Hr Hp Hn Hpn.
  assert (Hl : load_pages bytes = inl pages) by (unfold load_pages; rewrite Hr, Hp; reflexivity).
  assert (He : is_empty bytes = false) by (destruct bytes; [congruence|reflexivity]).
  unfold oxidize_extract_text, oxidize_get_page_count, oxidize_extract_text_from_page.
  rewrite He, Hl. split; [|split; [reflexivity|]].
  - unfold cstring_new. rewrite find_nul_join_pages by exact Hn.
    eexists. split; [reflexivity|]. unfold lookup_buffer. cbn. rewrite Nat.eqb_refl. reflexivity.
  - replace (pn =? 0) with false by (symmetry; apply Nat.eqb_neq; lia).
    replace (length pages <=? pn - 1) with false by (symmetry; apply Nat.leb_gt; lia).
    unfold cstring_new.
    assert (Hin : In (nth (pn - 1) pages []) pages) by (apply nth_In; lia).
    rewrite (proj1 (Forall_forall _ _) Hn _ Hin).
    eexists. split; [reflexivity|]. unfold lookup_buffer. cbn. rewrite Nat.eqb_refl. reflexivity.
Qed.

(** A [NullPointer] status means exactly that a pointer argument was null:
    [pdf_bytes] or the output location for the five entry points that read
    a document, the output location for [oxidize_version] and
    [oxidize_get_last_error]. *)
Theorem null_pointer_status_iff : forall w pdf_bytes page_number options out out_count,
  (fst (fst (oxidize_extract_text w pdf_bytes out)) = NullPointer <->
     pdf_bytes = None \/ out = None) /\
  (exists r, oxidize_extract_chunks w pdf_bytes options out = Done r /\
     (fst (fst r) = NullPointer <-> pdf_bytes = None \/ out = None)) /\
  (fst (fst (oxidize_get_page_count w pdf_bytes out_count)) = NullPointer <->
     pdf_bytes = None \/ out_count = None) /\
  (fst (fst (oxidize_extract_text_from_page w pdf_bytes page_number out)) = NullPointer <->
     pdf_bytes = None \/ out = None) /\
  (exists r, oxidize_extract_chunks_from_page w pdf_bytes page_number options out = Done r /\
     (fst (fst r) = NullPointer <-> pdf_bytes = None \/ out = None)) /\
  (fst (fst (oxidize_version w out)) = NullPointer <-> out = None) /\
  (fst (fst (oxidize_get_last_error w out)) = NullPointer <-> out = None).
Proof.
  intros w pdf_bytes pn options out out_count.
  split; [|split; [|split; [|split; [|split; [|split]]]]];
    [ idtac
    | apply (on_done_exists _ (fun r => fst (fst r) = NullPointer <->
                                         pdf_bytes = None \/ out = None));
      [|apply oxidize_extract_chunks_done]
    | idtac | idtac
    | apply (on_done_exists _ (fun r => fst (fst r) = NullPointer <->
                                         pdf_bytes = None \/ out = None));
      [|apply oxidize_extract_chunks_from_page_done]
    | idtac | idtac ];
    unfold oxidize_extract_text, oxidize_extract_chunks, oxidize_get_page_count,
      oxidize_extract_text_from_page, oxidize_extract_chunks_from_page, oxidize_version,
      oxidize_get_last_error, hand_over_chunks;
    abi_split; cbn [fst on_done];
    first [ exact I
          | split; [discriminate | intros [?|?]; discriminate]
          | split; [discriminate | intros ?; discriminate]
          | split; [intros _; reflexivity | intros _; reflexivity]
          | split; [intros _; (left; reflexivity) || (right; reflexivity) | intros _; reflexivity] ].
Qed.

End AbiAgreement.

Lemma text_entry_points_agree_witness :
  [104%Z; 105%Z] <> [] /\
  @pdf_reader_new one_page_backend [104%Z; 105%Z] = inl [104%Z; 105%Z] /\
  @pdf_document_extract_text one_page_backend [104%Z; 105%Z] = inl [[104%Z; 105%Z]] /\
  Forall (fun p => find_nul p = None) [[104%Z; 105%Z]] /\ 1 <= 1 <= length [[104%Z; 105%Z]] /\
  (exists w', @oxidize_extract_text one_page_backend (mkWorld None [] 0) (Some [104%Z; 105%Z])
                (Some NullPtr) = (Success, w', Some (Ptr 0)) /\
     lookup_buffer w' 0 = Some (join_pages [[104%Z; 105%Z]] ++ [0%Z])) /\
  @oxidize_get_page_count one_page_backend (mkWorld None [] 0) (Some [104%Z; 105%Z]) (Some 0) =
    (Success, clear_last_error (mkWorld None [] 0), Some 1) /\
  (exists w', @oxidize_extract_text_from_page one_page_backend (mkWorld None [] 0)
                (Some [104%Z; 105%Z]) 1 (Some NullPtr) = (Success, w', Some (Ptr 0)) /\
     lookup_buffer w' 0 = Some (nth 0 [[104%Z; 105%Z]] [] ++ [0%Z])).
Proof.
  assert (Hn : Forall (fun p => find_nul p = None) [[104%Z; 105%Z]])
    by (repeat constructor).
  split; [discriminate|]. split; [reflexivity|]. split; [reflexivity|].
  split; [exact Hn|]. split; [cbn; lia|].
  exact (@text_entry_points_agree one_page_backend (mkWorld None [] 0) [104%Z; 105%Z] NullPtr 0
           [104%Z; 105%Z] [[104%Z; 105%Z]] 1 ltac:(discriminate) eq_refl eq_refl Hn
           ltac:(cbn; lia)).
Defined.

(** The chunks of [oxidize_extract_chunks_from_page] are numbered from [0]
    on every page and carry the requested page number. *)
Theorem page_chunks_numbered_from_zero : forall opts pnum page,
  exists cs, page_chunks opts pnum page = Done cs /\
    map index cs = seq 0 (length cs) /\ Forall (fun c => page_number c = pnum) cs.
Proof.
  intros opts pnum page.
  destruct (page_chunks_loop_spec (S (length page)) opts pnum page 0 [] 0)
    as (L & H1 & H2 & H3); [lia|].
  exists L. unfold page_chunks. rewrite H1 by lia. split; [reflexivity|].
  split; [exact H2|]. eapply Forall_impl; [|exact H3]. intros c [Hc _]. exact Hc.
Qed.

Lemma find_char_boundary_zero : forall s, find_char_boundary s 0 = 0.
Proof.
  intros s. unfold find_char_boundary. destruct (length s <=? 0) eqn:E.
  - apply Nat.leb_le in E. lia.
  - destruct (length s - 0) eqn:F; [reflexivity|]. cbn [find_char_boundary_loop].
    replace (is_char_boundary s 0) with true by reflexivity.
    rewrite andb_false_r. reflexivity.
Qed.

Lemma find_char_boundary_length : forall s, find_char_boundary s (length s) = length s.
Proof. intros s. unfold find_char_boundary. rewrite Nat.leb_refl. reflexivity. Qed.

(** A page no longer than [max_chunk_size] bytes is one chunk: its trimmed
    text with index [0], or no chunk when it is empty or all whitespace. *)
Theorem short_page_is_one_chunk : forall opts pnum page,
  length page <= max_chunk_size opts ->
  page_chunks opts pnum page =
    Done (if is_empty (trim page) then []
          else [mkChunk 0 pnum (trim page) 1.0%float 0.0%float 0.0%float 0.0%float 0.0%float]).
Proof.
  intros opts pnum page Hlen. unfold page_chunks. rewrite page_chunks_loop_S.
  destruct (0 <? length page) eqn:Hp.
  2:{ apply Nat.ltb_ge in Hp. destruct page; [reflexivity|cbn in Hp; lia]. }
  apply Nat.ltb_lt in Hp. rewrite find_char_boundary_zero.
  replace (length page <=? 0) with false by (symmetry; apply Nat.leb_gt; lia).
  assert (Hce : chunk_end_of opts page 0 = Some (length page)).
  { unfold chunk_end_of. cbv zeta.
    replace (Nat.min (0 + max_chunk_size opts) (length page)) with (length page) by lia.
    rewrite find_char_boundary_length, Nat.ltb_irrefl, andb_false_r. reflexivity. }
  rewrite Hce, str_slice_ok by (reflexivity || lia || apply is_char_boundary_len).
  rewrite Nat.sub_0_r, skipn_O, firstn_all.
  replace (length page <=? length page) with true by (symmetry; apply Nat.leb_refl).
  destruct (is_empty (trim page)); cbn; rewrite orb_true_r; reflexivity.
Qed.

Lemma short_page_is_one_chunk_witness :
  length [32; 104; 105; 32]%Z <= max_chunk_size default_options /\
  page_chunks default_options 2 [32; 104; 105; 32]%Z =
    Done (if is_empty (trim [32; 104; 105; 32]%Z) then []
          else [mkChunk 0 2 (trim [32; 104; 105; 32]%Z)
                  1.0%float 0.0%float 0.0%float 0.0%float 0.0%float]).
Proof.
  split; [cbn; lia|].
  apply (short_page_is_one_chunk default_options 2 [32; 104; 105; 32]%Z). cbn; lia.
Defined.

Section AbiStatuses.
Context `{B : PdfBackend}.

(** The statuses each entry point can return: none returns
    [AllocationError], only the two chunking entry points return
    [SerializationError], and [oxidize_get_page_count] never returns
    [InvalidUtf8]. *)
Theorem entry_point_statuses : forall w pdf_bytes page_number options out out_count,
  In (fst (fst (oxidize_extract_text w pdf_bytes out)))
     [Success; NullPointer; InvalidUtf8; PdfParseError] /\
  (exists r, oxidize_extract_chunks w pdf_bytes options out = Done r /\
     In (fst (fst r)) [Success; NullPointer; InvalidUtf8; PdfParseError; SerializationError]) /\
  In (fst (fst (oxidize_get_page_count w pdf_bytes out_count)))
     [Success; NullPointer; PdfParseError] /\
  In (fst (fst (oxidize_extract_text_from_page w pdf_bytes page_number out)))
     [Success; NullPointer; InvalidUtf8; PdfParseError] /\
  (exists r, oxidize_extract_chunks_from_page w pdf_bytes page_number options out = Done r /\
     In (fst (fst r)) [Success; NullPointer; InvalidUtf8; PdfParseError; SerializationError]) /\
  In (fst (fst (oxidize_version w out))) [Success; NullPointer; InvalidUtf8] /\
  In (fst (fst (oxidize_get_last_error w out))) [Success; NullPointer; InvalidUtf8].
Proof.
  intros w pdf_bytes pn options out out_count.
  split; [|split; [|split; [|split; [|split; [|split]]]]];
    [ idtac
    | apply (on_done_exists _ (fun r => In (fst (fst r))
               [Success; NullPointer; InvalidUtf8; PdfParseError; SerializationError]));
      [|apply oxidize_extract_chunks_done]
    | idtac | idtac
    | apply (on_done_exists _ (fun r => In (fst (fst r))
               [Success; NullPointer; InvalidUtf8; PdfParseError; SerializationError]));
      [|apply oxidize_extract_chunks_from_page_done]
    | idtac | idtac ];
    unfold oxidize_extract_text, oxidize_extract_chunks, oxidize_get_page_count,
      oxidize_extract_text_from_page, oxidize_extract_chunks_from_page, oxidize_version,
      oxidize_get_last_error, hand_over_chunks;
    abi_split; cbn [fst on_done In];
    first [ exact I | repeat first [left; reflexivity | right] ].
Qed.

End AbiStatuses.
